(** * The Ceph cluster orchestration loop of [pkg/operator/ceph/cluster/cluster.go]

    A shallow embedding of the orchestration scheduler
    ([setOrchestrationNeeded], [checkSetOrchestrationStatus],
    [unsetOrchestrationStatus], [createInstance]), of the upgrade gate
    ([validateCephVersion], [diffImageSpecAndClusterRunningVersion]), of the
    role sequencer ([doOrchestration]) and of the spec differ
    ([clusterChanged]), followed by the properties proved about them.

    Conventions.  A Go method on [*cluster] becomes a function that threads
    the [cluster] record.  Calls into other packages (the Kubernetes client,
    the mon/mgr/osd/rbd sub-operators, the ceph client) are answered by an
    [Env] record of oracles and are recorded, with their arguments, in a
    chronological log of [call]s.  A [[]Node] slice names a backing array
    in a shared store, so that the in-place [sort.Sort] of [clusterChanged]
    is visible to every holder of the same backing array; the library's
    sort is a parameter, known by what the library fixes of it.  The
    goroutines in [createInstance] are followed at three levels: the flags
    and the place of each goroutine ([step]); one [createInstance] and what
    the others do to the cluster object around its passes
    ([orchestrationLoop]); every goroutine, operation by operation, on the
    shared cluster object, store and log ([act]). *)

From Stdlib Require Import ZArith Ascii String.
From stdpp Require Import base option list gmap strings sorting.

Local Open Scope string_scope.
Local Open Scope list_scope.
Local Open Scope nat_scope.

(** ** Package [cephver]: software versions *)

(** Modelled from the spec: the [CephVersion] type of package [cephver]
    (pkg/operator/ceph/version) is not part of the sources at hand.  The spec
    describes "a parsed semantic version (major.minor.patch + optional build
    metadata) with a strict ordering relation"; the four components are Go
    [int]s, only ever compared. *)
Record CephVersion := mkCephVersion {
  Major : Z;
  Minor : Z;
  Extra : Z;
  Build : Z
}.

#[global] Instance CephVersion_eq_dec : EqDecision CephVersion.
Proof. solve_decision. Defined.

(** Modelled from the spec: [cephver.IsSuperior], missing from the sources.
    "A strict ordering relation", "a total order, not merely a partial one":
    the lexicographic order on (major, minor, patch, build). *)
Definition IsSuperior (a b : CephVersion) : bool :=
  if bool_decide (Major a > Major b)%Z then true
  else if bool_decide (Major a = Major b ∧ Minor a > Minor b)%Z then true
  else if bool_decide (Major a = Major b ∧ Minor a = Minor b
                       ∧ Extra a > Extra b)%Z then true
  else if bool_decide (Major a = Major b ∧ Minor a = Minor b
                       ∧ Extra a = Extra b ∧ Build a > Build b)%Z then true
  else false.

(** Modelled from the spec: [cephver.IsInferior], missing from the sources;
    the converse of [IsSuperior]. *)
Definition IsInferior (a b : CephVersion) : bool :=
  if bool_decide (Major a < Major b)%Z then true
  else if bool_decide (Major a = Major b ∧ Minor a < Minor b)%Z then true
  else if bool_decide (Major a = Major b ∧ Minor a = Minor b
                       ∧ Extra a < Extra b)%Z then true
  else if bool_decide (Major a = Major b ∧ Minor a = Minor b
                       ∧ Extra a = Extra b ∧ Build a < Build b)%Z then true
  else false.

(** Modelled from the spec: [cephver.IsIdentical], missing from the sources;
    "[IsIdentical(a,b)] holds iff neither [IsSuperior] nor [IsInferior]
    does". *)
Definition IsIdentical (a b : CephVersion) : bool :=
  bool_decide (Major a = Major b ∧ Minor a = Minor b
               ∧ Extra a = Extra b ∧ Build a = Build b).

(** Modelled from the spec: the method [CephVersion.IsAtLeast], missing from
    the sources; the "minimum-version check". *)
Definition IsAtLeast (v other : CephVersion) : bool :=
  IsSuperior v other || IsIdentical v other.

(** ** Errors *)

(** Go [error] values.  One constructor per [fmt.Errorf] site of cluster.go
    (the wrapped cause, where the format has a [%+v] for it, is kept), plus
    the errors that come back from collaborators. *)
Inductive error :=
  | ErrExternal (msg : string)
      (* an error returned by a collaborator *)
  | ErrAlreadyExists
      (* a Kubernetes error for which errors.IsAlreadyExists holds *)
  | ErrBelowMinimum (minimum : CephVersion)
      (* "the version does not meet the minimum version" *)
  | ErrAllowUnsupported (v : CephVersion)
      (* "allowUnsupported must be set to true to run with this version" *)
  | ErrNotHealthy (ns : string)
      (* "ceph status in namespace %s is not healthy, refusing to upgrade" *)
  | ErrNoOverall
      (* "no 'overall' section in the ceph versions" *)
  | ErrDowngrade (imageSpecVersion clusterRunningVersion : CephVersion)
      (* "image spec version %s is lower than the running cluster version
         %s, downgrading is not supported" *)
  | ErrConfigMap (ns : string) (cause : error)
      (* "failed to create override configmap" *)
  | ErrMonStart (cause : error)
      (* "failed to start the mons" *)
  | ErrIdentity
      (* "the cluster identity was not established" *)
  | ErrMgrStart (cause : error)
      (* "failed to start the ceph mgr" *)
  | ErrOsdStart (cause : error)
      (* "failed to start the osds" *)
  | ErrRbdMirrorStart (cause : error).
      (* "failed to start the rbd mirrors" *)

(** [errors.IsAlreadyExists] of k8s.io/apimachinery. *)
Definition IsAlreadyExists (e : error) : bool :=
  match e with ErrAlreadyExists => true | _ => false end.

(** ** Package [rookv1alpha2] and [cephv1]: the cluster spec *)

(** Modelled from the spec: the storage [Node] type of package rookv1alpha2
    is missing from the sources.  [clusterChanged] orders nodes "by name";
    the rest of a node's settings only matters to [reflect.DeepEqual], and
    stands here as far as [reflect.DeepEqual] can tell two nodes apart: a
    location, a slice of devices, which is nil ([None]) or holds devices,
    possibly none ([Some []]), and [OtherSettings] for everything else of
    the node, two nodes having the same [OtherSettings] exactly when they
    are deeply equal there. *)
Record Node := mkNode {
  Name : string;
  Location : string;
  Devices : option (list string);
  OtherSettings : string
}.

#[global] Instance Node_eq_dec : EqDecision Node.
Proof. solve_decision. Defined.

(** A Go slice of nodes: [nil], or the cells of a backing array, named by
    its address.  cluster.go never reslices, and a decoded or copied spec
    owns the whole of its array, so a slice shows all the cells of one
    array; two slices on the same array show the same cells, whoever
    writes them. *)
Inductive slice :=
  | NilSlice
  | SliceOf (array : nat).

#[global] Instance slice_eq_dec : EqDecision slice.
Proof. solve_decision. Defined.

(** The backing arrays, by address. *)
Abbreviation heap := (list (list Node)).

Record CephVersionSpec := mkCephVersionSpec {
  Image : string;
  AllowUnsupported : bool
}.

#[global] Instance CephVersionSpec_eq_dec : EqDecision CephVersionSpec.
Proof. solve_decision. Defined.

Record StorageScopeSpec := mkStorage {
  Nodes : slice;
  UseAllNodes : bool;
  UseAllDevices : bool
}.

#[global] Instance StorageScopeSpec_eq_dec : EqDecision StorageScopeSpec.
Proof. solve_decision. Defined.

(** A Go map keyed by role name: nil ([None]), or a table with entries,
    possibly none ([Some ∅]).  [reflect.DeepEqual] tells the two apart. *)
Abbreviation table := (option (gmap string string)).

(** [cephv1.ClusterSpec], as cluster.go reads it and as far as
    [reflect.DeepEqual] can tell two specs apart.  The per-role tables
    (placement, annotations, resources) hold an opaque description per
    role.  [Unread] stands for everything else of a spec: the fields
    cluster.go never reads and what the settings shown here leave out, two
    specs having the same [Unread] exactly when they are deeply equal
    there. *)
Record ClusterSpec := mkClusterSpec {
  CephVersionOf : CephVersionSpec;      (* field CephVersion *)
  Storage : StorageScopeSpec;
  Annotations : table;
  Placement : table;
  Network : bool;                       (* host networking *)
  Resources : table;
  DataDirHostPath : string;
  Dashboard : bool;
  Monitoring : bool;
  RBDMirroring : nat;                   (* number of workers *)
  Unread : string
}.

#[global] Instance ClusterSpec_eq_dec : EqDecision ClusterSpec.
Proof. solve_decision. Defined.

Definition with_Nodes (s : ClusterSpec) (n : slice) : ClusterSpec :=
  {| CephVersionOf := CephVersionOf s;
     Storage := {| Nodes := n;
                   UseAllNodes := UseAllNodes (Storage s);
                   UseAllDevices := UseAllDevices (Storage s) |};
     Annotations := Annotations s;
     Placement := Placement s;
     Network := Network s;
     Resources := Resources s;
     DataDirHostPath := DataDirHostPath s;
     Dashboard := Dashboard s;
     Monitoring := Monitoring s;
     RBDMirroring := RBDMirroring s;
     Unread := Unread s |}.

(** ** Package [cephconfig]: the cluster identity *)

(** Modelled from the spec: [cephconfig.ClusterInfo] is missing from the
    sources.  Its fields are "cluster unique id (string), admin credential
    material (opaque secret reference), and detected running
    major/minor/patch version". *)
Record ClusterInfo := mkClusterInfo {
  FSID : string;
  AdminSecret : string;
  RunningVersion : CephVersion
}.

#[global] Instance ClusterInfo_eq_dec : EqDecision ClusterInfo.
Proof. solve_decision. Defined.

(** Modelled from the spec: the method [ClusterInfo.IsInitialized], missing
    from the sources, on a possibly nil [*ClusterInfo].  The identity
    "starts nil/unestablished" and is established once the unique id and
    the credentials exist. *)
Definition IsInitialized (info : option ClusterInfo) : bool :=
  match info with
  | None => false
  | Some i => negb (String.eqb (FSID i) "") && negb (String.eqb (AdminSecret i) "")
  end.

(** ** Package [client]: what the live cluster reports *)

(** [client.CephDaemonsVersions]: version string to daemon count, per role
    and overall.  cluster.go only reads [Overall]. *)
Record CephDaemonsVersions := mkVersions {
  Mon : gmap string nat;
  Osd : gmap string nat;
  Overall : gmap string nat
}.

(** ** The [cluster] object *)

(** A child controller is identified by a name; its one method,
    [ParentClusterChanged], returns nothing and is observed as a [call]. *)
Definition childController := string.

(** The fields of the Go struct [cluster].  [Spec] is the value the pointer
    [c.Spec] currently leads to; [context], [mons] and [stopCh] are handles
    on collaborators; [orchMux] is the lock that makes each of the three
    flag operations below one atomic step. *)
Record cluster := mkCluster {
  Info : option ClusterInfo;
  Namespace : string;
  Spec : ClusterSpec;
  crdName : string;
  initCompleted : bool;
  ownerRef : string;
  orchestrationRunning : bool;
  orchestrationNeeded : bool;
  childControllers : list childController;
  isUpgrade : bool
}.

Definition set_Info (v : option ClusterInfo) (c : cluster) : cluster :=
  mkCluster v (Namespace c) (Spec c) (crdName c) (initCompleted c)
    (ownerRef c) (orchestrationRunning c) (orchestrationNeeded c)
    (childControllers c) (isUpgrade c).

Definition set_Spec (v : ClusterSpec) (c : cluster) : cluster :=
  mkCluster (Info c) (Namespace c) v (crdName c) (initCompleted c)
    (ownerRef c) (orchestrationRunning c) (orchestrationNeeded c)
    (childControllers c) (isUpgrade c).

Definition set_initCompleted (v : bool) (c : cluster) : cluster :=
  mkCluster (Info c) (Namespace c) (Spec c) (crdName c) v
    (ownerRef c) (orchestrationRunning c) (orchestrationNeeded c)
    (childControllers c) (isUpgrade c).

Definition set_orchestrationRunning (v : bool) (c : cluster) : cluster :=
  mkCluster (Info c) (Namespace c) (Spec c) (crdName c) (initCompleted c)
    (ownerRef c) v (orchestrationNeeded c)
    (childControllers c) (isUpgrade c).

Definition set_orchestrationNeeded (v : bool) (c : cluster) : cluster :=
  mkCluster (Info c) (Namespace c) (Spec c) (crdName c) (initCompleted c)
    (ownerRef c) (orchestrationRunning c) v
    (childControllers c) (isUpgrade c).

Definition set_isUpgrade (v : bool) (c : cluster) : cluster :=
  mkCluster (Info c) (Namespace c) (Spec c) (crdName c) (initCompleted c)
    (ownerRef c) (orchestrationRunning c) (orchestrationNeeded c)
    (childControllers c) v.

(** initialized checks if the cluster has ever completed a successful
    orchestration since the operator has started. *)
Definition initialized (c : cluster) : bool := initCompleted c.

(** ** The orchestration flags *)

Definition setOrchestrationNeeded (c : cluster) : cluster :=
  set_orchestrationNeeded true c.

(** unsetOrchestrationStatus resets the orchestrationRunning-flag. *)
Definition unsetOrchestrationStatus (c : cluster) : cluster :=
  set_orchestrationRunning false c.

(** checkSetOrchestrationStatus: the returned boolean and the cluster after
    the call. *)
Definition checkSetOrchestrationStatus (c : cluster) : bool * cluster :=
  if orchestrationNeeded c && negb (orchestrationRunning c) then
    (true, set_orchestrationRunning true (set_orchestrationNeeded false c))
  else
    (false, c).

(** ** Collaborators *)

(** What [mgr.New], [osd.New] and [rbd.New] are given (the operator context
    is left out). *)
Record mgrCluster := mkMgr {
  mgr_info : option ClusterInfo;
  mgr_namespace : string;
  mgr_rookImage : string;
  mgr_cephVersion : CephVersionSpec;
  mgr_placement : string;
  mgr_annotations : string;
  mgr_network : bool;
  mgr_dashboard : bool;
  mgr_monitoring : bool;
  mgr_resources : string;
  mgr_ownerRef : string;
  mgr_dataDir : string;
  mgr_isUpgrade : bool
}.

Record osdCluster := mkOsd {
  osd_info : option ClusterInfo;
  osd_namespace : string;
  osd_rookImage : string;
  osd_cephVersion : CephVersionSpec;
  osd_storage : StorageScopeSpec;
  osd_dataDir : string;
  osd_placement : string;
  osd_annotations : string;
  osd_network : bool;
  osd_resources : string;
  osd_ownerRef : string;
  osd_isUpgrade : bool
}.

Record rbdMirroring := mkRbd {
  rbd_info : option ClusterInfo;
  rbd_namespace : string;
  rbd_rookImage : string;
  rbd_cephVersion : CephVersionSpec;
  rbd_placement : string;
  rbd_annotations : string;
  rbd_network : bool;
  rbd_spec : nat;
  rbd_resources : string;
  rbd_ownerRef : string;
  rbd_dataDir : string;
  rbd_isUpgrade : bool
}.

(** The calls that leave cluster.go, in the order they are made. *)
Inductive call :=
  | CallLoadClusterInfo (ns : string)
  | CallWriteConnectionConfig (info : option ClusterInfo)
  | CallGetAllCephDaemonVersions (ns : string)
  | CallIsCephHealthy (ns : string)
  | CallCreateConfigMap (ns owner : string)
  | CallMonsStart (info : option ClusterInfo) (rookImage : string)
      (cephVersion : CephVersion) (spec : ClusterSpec) (upgrade : bool)
  | CallMgrStart (m : mgrCluster)
  | CallOsdStart (o : osdCluster)
  | CallRbdMirrorStart (r : rbdMirroring)
  | CallParentClusterChanged (child : childController) (spec : ClusterSpec)
      (info : option ClusterInfo) (upgrade : bool).

(** The answers of the collaborators, and the constants and pure helpers of
    the packages that are not part of the sources at hand.  Every theorem
    below holds for every [Env]. *)
Record Env := mkEnv {
  (* package cephver *)
  Minimum : CephVersion;
  Supported : CephVersion → bool;
  ExtractCephVersion : string → CephVersion + error;
  (* package mon *)
  LoadClusterInfo : string → option ClusterInfo * option error;
  WriteConnectionConfig : option ClusterInfo → option error;
  mons_Start : option ClusterInfo → string → CephVersion → ClusterSpec →
               bool → option ClusterInfo * option error;
  (* package client *)
  GetAllCephDaemonVersions : string → CephDaemonsVersions + error;
  IsCephHealthy : string → bool;
  (* the Kubernetes client: ConfigMaps(ns).Create *)
  CreateConfigMap : string → string → option error;
  (* packages mgr, osd, rbd *)
  mgr_Start : mgrCluster → option error;
  osd_Start : osdCluster → option error;
  rbd_Start : rbdMirroring → option error;
  (* package cephv1: the per-role selectors *)
  GetMgrPlacement : table → string;
  GetMgrAnnotations : table → string;
  GetMgrResources : table → string;
  GetOSDPlacement : table → string;
  GetOSDAnnotations : table → string;
  GetOSDResources : table → string;
  GetRBDMirrorPlacement : table → string;
  GetRBDMirrorAnnotations : table → string;
  GetRBDMirrorResources : table → string;
  (* go-cmp: [None] when cmp.Diff panics *)
  cmp_Diff : heap → ClusterSpec → ClusterSpec → option string
}.

(** ** Operations on the cluster object *)

(** What an operation runs on: the cluster object, the backing store of the
    node slices, and the calls made so far. *)
Record state := mkState {
  obj : cluster;
  mem : heap;
  log : list call
}.

(** A Go function that returns an [error] next to its result. *)
Inductive result (A : Type) :=
  | Return (a : A)
  | Fail (e : error).
Arguments Return {A} a.
Arguments Fail {A} e.

Definition Op (A : Type) : Type := state → result A * state.

#[global] Instance Op_ret : MRet Op := λ A a st, (Return a, st).

#[global] Instance Op_bind : MBind Op := λ A B f m st,
  match m st with
  | (Return a, st') => f a st'
  | (Fail e, st') => (Fail e, st')
  end.

Definition fail {A} (e : error) : Op A := λ st, (Fail e, st).

Definition get_cluster : Op cluster := λ st, (Return (obj st), st).

Definition modify_cluster (f : cluster → cluster) : Op unit :=
  λ st, (Return (), mkState (f (obj st)) (mem st) (log st)).

(** An outgoing call: its answer comes from the environment and the call
    is appended to the log. *)
Definition outgoing {A} (ev : call) (answer : A) : Op A :=
  λ st, (Return answer, mkState (obj st) (mem st) (log st ++ [ev])).

(** [if err != nil { return wrap(err) }] *)
Definition check_err (err : option error) (wrap : error → error) : Op unit :=
  match err with
  | Some e => fail (wrap e)
  | None => mret ()
  end.

(** The error a Go function returns: [None] is [nil]. *)
Definition error_of {A} (r : result A) : option error :=
  match r with
  | Return _ => None
  | Fail e => Some e
  end.

(** ** Package [sort] and the order of the nodes *)

(** Modelled from the spec: [rookv1alpha2.NodesByName] is missing from the
    sources; its [Less] compares the names ("sort the nodes by name"), as
    Go compares strings: byte by byte. *)
Definition Less (a b : Node) : bool := String.ltb (Name a) (Name b).

(** Sorted by node name: no node is [Less] than one before it. *)
Definition by_name (a b : Node) : Prop := Less b a = false.

(** The insertion sort of the Go library: the elements are taken from left
    to right, and each one moves left past the elements it is [Less]
    than. *)
Fixpoint insert (x : Node) (sorted : list Node) : list Node :=
  match sorted with
  | [] => [x]
  | y :: rest => if Less x y then x :: y :: rest else y :: insert x rest
  end.

Definition insertionSort (l : list Node) : list Node :=
  fold_left (λ sorted x, insert x sorted) l [].

(** [sort.Sort] of the Go library, as far as its documentation and its
    releases fix what it does to a slice of nodes: it rearranges them so
    that no node is [Less] than one before it; it is not stable, so the
    order in which it leaves nodes of the same name is its own; on a slice
    of at most 6 elements every release runs the insertion sort above
    (before Go 1.19 slices of 7 to 12 elements first get a pass of Shell
    sort, and longer ones are sorted by quicksort and heapsort).  What
    follows holds for every such sort. *)
Record Sorter := mkSorter {
  sortNodes : list Node → list Node;
  sortNodes_perm : ∀ l, sortNodes l ≡ₚ l;
  sortNodes_sorted : ∀ l, Sorted by_name (sortNodes l);
  sortNodes_short : ∀ l, length l ≤ 6 → sortNodes l = insertionSort l
}.

Section Orchestration.

Context (E : Env) (sorter : Sorter).

(** ** The upgrade gate *)

(** The loop [for v := range runningVersions.Overall] of
    [diffImageSpecAndClusterRunningVersion], over the entries of the map:
    an entry for which none of the three comparisons holds lets the loop
    go on, and the function ends in [return false, nil]. *)
Fixpoint rangeOverall (imageSpecVersion : CephVersion)
    (entries : list (string * nat)) : bool * option error :=
  match entries with
  | [] => (false, None)
  | (v, _) :: rest =>
      match ExtractCephVersion E v with
      | inr err => (false, Some err)
      | inl clusterRunningVersion =>
          if IsIdentical clusterRunningVersion imageSpecVersion then
            (false, None)
          else if IsSuperior imageSpecVersion clusterRunningVersion then
            (true, None)
          else if IsInferior imageSpecVersion clusterRunningVersion then
            (true, Some (ErrDowngrade imageSpecVersion clusterRunningVersion))
          else rangeOverall imageSpecVersion rest
      end
  end.

(** This function compare the Ceph spec image and the cluster running
    version. *)
Definition diffImageSpecAndClusterRunningVersion
    (imageSpecVersion : CephVersion) (runningVersions : CephDaemonsVersions)
    : bool * option error :=
  let numberOfCephVersions := size (Overall runningVersions) in
  if bool_decide (numberOfCephVersions = 0) then
    (false, Some ErrNoOverall)
  else if bool_decide (1 < numberOfCephVersions) then
    (true, None)
  else if bool_decide (numberOfCephVersions = 1) then
    rangeOverall imageSpecVersion (map_to_list (Overall runningVersions))
  else (false, None).

Definition validateCephVersion (version : CephVersion) : Op unit :=
  if negb (IsAtLeast version (Minimum E)) then
    fail (ErrBelowMinimum (Minimum E))
  else
    c ← get_cluster;
    (if negb (Supported E version)
        && negb (AllowUnsupported (CephVersionOf (Spec c)))
     then fail (ErrAllowUnsupported version) else mret ());;
    (* Try to load clusterInfo so we can compare the running version with
       the one from the spec image *)
    '(clusterInfo, err) ← outgoing (CallLoadClusterInfo (Namespace c))
                            (LoadClusterInfo E (Namespace c));
    (match err with
     | None =>
         (* the error of WriteConnectionConfig is only logged *)
         _ ← outgoing (CallWriteConnectionConfig clusterInfo)
               (WriteConnectionConfig E clusterInfo);
         mret ()
     | Some _ => mret ()
     end);;
    if negb (IsInitialized clusterInfo) then
      (* likely a new cluster so there is nothing to do *)
      mret ()
    else
      (* Get cluster running versions *)
      versions ← outgoing (CallGetAllCephDaemonVersions (Namespace c))
                   (GetAllCephDaemonVersions E (Namespace c));
      match versions with
      | inr _ => mret ()
      | inl runningVersions =>
          match diffImageSpecAndClusterRunningVersion version runningVersions with
          | (_, Some _) =>
              (* we proceed anyway in best effort *)
              mret ()
          | (differentImages, None) =>
              if differentImages then
                cephHealthy ← outgoing (CallIsCephHealthy (Namespace c))
                                (IsCephHealthy E (Namespace c));
                if negb cephHealthy then fail (ErrNotHealthy (Namespace c))
                else modify_cluster (set_isUpgrade true)
              else mret ()
          end
      end.


(** ** The role sequencer *)

(** [for _, child := range c.childControllers], each iteration reading
    [*c.Spec] and [c.isUpgrade] anew. *)
Fixpoint notifyChildren (children : list childController)
    (clusterInfo : option ClusterInfo) : Op unit :=
  match children with
  | [] => mret ()
  | child :: rest =>
      c ← get_cluster;
      outgoing (CallParentClusterChanged child (Spec c) clusterInfo (isUpgrade c)) ();;
      notifyChildren rest clusterInfo
  end.

Definition doOrchestration (rookImage : string) (cephVersion : CephVersion)
    (spec : ClusterSpec) : Op unit :=
  (* Create a configmap for overriding ceph config settings *)
  c ← get_cluster;
  err ← outgoing (CallCreateConfigMap (Namespace c) (ownerRef c))
          (CreateConfigMap E (Namespace c) (ownerRef c));
  (match err with
   | Some e =>
       if negb (IsAlreadyExists e) then fail (ErrConfigMap (Namespace c) e)
       else mret ()
   | None => mret ()
   end);;
  (* Start the mon pods *)
  c ← get_cluster;
  '(clusterInfo, err) ←
    outgoing (CallMonsStart (Info c) rookImage cephVersion (Spec c) (isUpgrade c))
      (mons_Start E (Info c) rookImage cephVersion (Spec c) (isUpgrade c));
  check_err err ErrMonStart;;
  modify_cluster (set_Info clusterInfo);;  (* mons return the cluster's info *)
  (* The cluster Identity must be established at this point *)
  c ← get_cluster;
  if negb (IsInitialized (Info c)) then fail ErrIdentity
  else
    c ← get_cluster;
    let mgrs :=
      mkMgr (Info c) (Namespace c) rookImage (CephVersionOf spec)
        (GetMgrPlacement E (Placement spec))
        (GetMgrAnnotations E (Annotations (Spec c)))
        (Network spec) (Dashboard spec) (Monitoring spec)
        (GetMgrResources E (Resources spec)) (ownerRef c)
        (DataDirHostPath (Spec c)) (isUpgrade c) in
    err ← outgoing (CallMgrStart mgrs) (mgr_Start E mgrs);
    check_err err ErrMgrStart;;
    (* Start the OSDs *)
    c ← get_cluster;
    let osds :=
      mkOsd (Info c) (Namespace c) rookImage (CephVersionOf spec)
        (Storage spec) (DataDirHostPath spec)
        (GetOSDPlacement E (Placement spec))
        (GetOSDAnnotations E (Annotations spec)) (Network spec)
        (GetOSDResources E (Resources spec)) (ownerRef c) (isUpgrade c) in
    err ← outgoing (CallOsdStart osds) (osd_Start E osds);
    check_err err ErrOsdStart;;
    (* Start the rbd mirroring daemon(s) *)
    c ← get_cluster;
    let rbdmirror :=
      mkRbd (Info c) (Namespace c) rookImage (CephVersionOf spec)
        (GetRBDMirrorPlacement E (Placement spec))
        (GetRBDMirrorAnnotations E (Annotations spec)) (Network spec)
        (RBDMirroring spec) (GetRBDMirrorResources E (Resources spec))
        (ownerRef c) (DataDirHostPath (Spec c)) (isUpgrade c) in
    err ← outgoing (CallRbdMirrorStart rbdmirror) (rbd_Start E rbdmirror);
    check_err err ErrRbdMirrorStart;;
    modify_cluster (set_initCompleted true);;
    (* Notify the child controllers that the cluster spec might have
       changed *)
    c ← get_cluster;
    notifyChildren (childControllers c) clusterInfo.

(** ** Node slices and the backing store *)

(** The nodes a slice shows. *)
Definition read (m : heap) (s : slice) : list Node :=
  match s with
  | NilSlice => []
  | SliceOf a => default [] (m !! a)
  end.

(** Modelled from the spec: the generated [ClusterSpec.DeepCopy] is missing
    from the sources; "a defensive full copy".  The nodes are copied into a
    fresh backing array; a nil slice stays nil. *)
Definition DeepCopy (m : heap) (s : ClusterSpec) : ClusterSpec * heap :=
  match Nodes (Storage s) with
  | NilSlice => (s, m)
  | SliceOf a => (with_Nodes s (SliceOf (length m)), m ++ [read m (SliceOf a)])
  end.

(** [sort.Sort(NodesByName(s))]: the cells of the backing array are
    rearranged in place, as the library's sort arranges them. *)
Definition sort_Sort (m : heap) (s : slice) : heap :=
  match s with
  | NilSlice => m
  | SliceOf a => <[a := sortNodes sorter (read m s)]> m
  end.

(** [reflect.DeepEqual] on two node slices: both nil or both non-nil, and
    the same nodes in the same order. *)
Definition slice_DeepEqual (m : heap) (s1 s2 : slice) : bool :=
  match s1, s2 with
  | NilSlice, NilSlice => true
  | SliceOf _, SliceOf _ => bool_decide (read m s1 = read m s2)
  | _, _ => false
  end.

(** [reflect.DeepEqual] on two cluster specs: deeply equal in everything
    but the node slices, which equality of the records says since a nil
    table is not an empty one and [Unread] stands for what is not shown,
    and deeply equal node slices. *)
Definition DeepEqual (m : heap) (a b : ClusterSpec) : bool :=
  bool_decide (with_Nodes a NilSlice = with_Nodes b NilSlice)
  && slice_DeepEqual m (Nodes (Storage a)) (Nodes (Storage b)).

(** ** The spec differ *)

(** [clusterChanged]: the two results, and the backing store after the
    call.  The diff is only computed for the log; when [cmp.Diff] panics
    the panic is recovered and the diff stays empty. *)
Definition clusterChanged (oldCluster newCluster : ClusterSpec)
    (clusterRef : cluster) (m : heap) : bool * string * heap :=
  (* sort the nodes by name then compare to see if there are changes *)
  let m := sort_Sort m (Nodes (Storage oldCluster)) in
  let m := sort_Sort m (Nodes (Storage newCluster)) in
  (* any change in the crd will trigger an orchestration *)
  if negb (DeepEqual m oldCluster newCluster) then
    (true, default "" (cmp_Diff E m oldCluster newCluster), m)
  else
    (false, "", m).

(** ** The driving loop *)

(** What other goroutines may do while this [createInstance] runs.  A
    goroutine that requests an orchestration is in [createInstance] itself:
    after its [setOrchestrationNeeded] it tests the loop condition, and when
    it wins the claim it copies the spec, runs its own pass and releases.
    The update handler points [c.Spec] at a new spec.  A schedule is a list
    of such operations and is not checked for what the other goroutines
    would really do (a release by one that holds no claim); which goroutine
    does what, in which order, is followed step by step in [act] below. *)
Inductive interference :=
  | OtherRequest                     (* its setOrchestrationNeeded *)
  | OtherSetSpec (s : ClusterSpec)   (* c.Spec is pointed at a new spec *)
  | OtherClaim                       (* its checkSetOrchestrationStatus *)
  | OtherPass (rookImage : string) (cephVersion : CephVersion)
                                     (* its copy of the spec and its pass *)
  | OtherRelease.                    (* its unsetOrchestrationStatus *)

Definition interfere (st : state) (a : interference) : state :=
  match a with
  | OtherRequest =>
      mkState (setOrchestrationNeeded (obj st)) (mem st) (log st)
  | OtherSetSpec s =>
      mkState (set_Spec s (obj st)) (mem st) (log st)
  | OtherClaim =>
      mkState (checkSetOrchestrationStatus (obj st)).2 (mem st) (log st)
  | OtherPass rookImage cephVersion =>
      let '(spec, m) := DeepCopy (mem st) (Spec (obj st)) in
      (doOrchestration rookImage cephVersion spec
         (mkState (obj st) m (log st))).2
  | OtherRelease =>
      mkState (unsetOrchestrationStatus (obj st)) (mem st) (log st)
  end.

Definition interfere_all (l : list interference) (st : state) : state :=
  fold_left interfere l st.

(** What happens around one pass: after the spec was copied and before the
    roles are started ([early]); after [doOrchestration] has returned and
    before the release ([late]); after the release and before the loop
    tests its condition again ([gap]). *)
Record turn := mkTurn {
  early : list interference;
  late : list interference;
  gap : list interference
}.

Definition quiet : turn := mkTurn [] [] [].

(** The [for] loop of [createInstance].  [sched] tells what the other
    goroutines do around each pass, and nothing happens once it is used up;
    [fuel] bounds the number of times the loop condition is evaluated.  The
    result is the error returned, the spec copies the passes ran on, in
    order, and the final state; [None] when the fuel runs out. *)
Fixpoint orchestrationLoop (fuel : nat) (sched : list turn)
    (rookImage : string) (cephVersion : CephVersion) (err : option error)
    (passes : list ClusterSpec) (st : state)
    : option (option error * list ClusterSpec * state) :=
  match fuel with
  | 0 => None
  | S fuel =>
      let '(claimed, c) := checkSetOrchestrationStatus (obj st) in
      let st := mkState c (mem st) (log st) in
      if claimed then
        let t := hd quiet sched in
        (* Use a DeepCopy of the spec to avoid using an inconsistent
           data-set *)
        let '(spec, m) := DeepCopy (mem st) (Spec (obj st)) in
        let st := mkState (obj st) m (log st) in
        let st := interfere_all (early t) st in
        let '(r, st) := doOrchestration rookImage cephVersion spec st in
        let st := interfere_all (late t) st in
        let st := mkState (unsetOrchestrationStatus (obj st)) (mem st) (log st) in
        let st := interfere_all (gap t) st in
        orchestrationLoop fuel (tl sched) rookImage cephVersion
          (error_of r) (passes ++ [spec]) st
      else Some (err, passes, st)
  end.

Definition createInstance (fuel : nat) (sched : list turn)
    (rookImage : string) (cephVersion : CephVersion) (st : state)
    : option (option error * list ClusterSpec * state) :=
  let st := mkState (setOrchestrationNeeded (obj st)) (mem st) (log st) in
  orchestrationLoop fuel sched rookImage cephVersion None [] st.

End Orchestration.

(** ** Several goroutines in [createInstance] *)

(** Where a goroutine stands in [createInstance]: before
    [setOrchestrationNeeded], at the loop condition, inside a pass (between
    a successful [checkSetOrchestrationStatus] and
    [unsetOrchestrationStatus]), or after the loop. *)
Inductive pc :=
  | Entering
  | AtCondition
  | InPass
  | Returned.

#[global] Instance pc_eq_dec : EqDecision pc.
Proof. solve_decision. Defined.

Record system := mkSystem {
  shared : cluster;
  goroutines : list pc
}.

(** One atomic step of one goroutine; the lock [orchMux] makes each flag
    operation one step. *)
Inductive step : system → system → Prop :=
  | step_spawn c gs :
      step (mkSystem c gs) (mkSystem c (gs ++ [Entering]))
  | step_request c gs i :
      gs !! i = Some Entering →
      step (mkSystem c gs)
           (mkSystem (setOrchestrationNeeded c) (<[i := AtCondition]> gs))
  | step_claim c gs i :
      gs !! i = Some AtCondition →
      step (mkSystem c gs)
           (mkSystem (checkSetOrchestrationStatus c).2
              (<[i := if (checkSetOrchestrationStatus c).1
                      then InPass else Returned]> gs))
  | step_release c gs i :
      gs !! i = Some InPass →
      step (mkSystem c gs)
           (mkSystem (unsetOrchestrationStatus c) (<[i := AtCondition]> gs)).

(** The states the system gets to from a cluster object on which no
    orchestration runs and no goroutine is in [createInstance]. *)
Inductive reachable : system → Prop :=
  | reachable_init c :
      orchestrationRunning c = false → reachable (mkSystem c [])
  | reachable_step s s' :
      reachable s → step s s' → reachable s'.

(** The goroutines that are inside a pass. *)
Definition claimants (s : system) : list pc :=
  filter (λ p, p = InPass) (goroutines s).

(** ** The goroutines of [createInstance], step by step *)

(** Where a goroutine stands in [createInstance], with its local [err] or
    its copy of the spec: before [setOrchestrationNeeded]; at the loop
    condition; in the loop body with the claim, before the spec is copied;
    before [doOrchestration]; before [unsetOrchestrationStatus]; returned. *)
Inductive place :=
  | AtRequest
  | AtTest (err : option error)
  | AtCopy (err : option error)
  | AtPass (spec : ClusterSpec)
  | AtRelease (err : option error)
  | Gone (err : option error).

(** A goroutine in [createInstance]: the arguments of its call and its
    place. *)
Record goroutine := mkGoroutine {
  g_rookImage : string;
  g_cephVersion : CephVersion;
  g_place : place
}.

(** The cluster object, the backing store and the log, shared by the
    goroutines, and the goroutines. *)
Record world := mkWorld {
  w_state : state;
  w_goroutines : list goroutine
}.

(** What can happen next: a goroutine calls [createInstance]; goroutine
    [i] does its next operation; the update handler points [c.Spec] at a
    new spec. *)
Inductive action :=
  | Call (rookImage : string) (cephVersion : CephVersion)
  | Request (i : nat)
  | Test (i : nat)
  | Copy (i : nat)
  | Pass (i : nat)
  | Release (i : nat)
  | Edit (s : ClusterSpec).

Definition move (w : world) (i : nat) (g : goroutine) (p : place)
    (st : state) : world :=
  mkWorld st
    (<[i := mkGoroutine (g_rookImage g) (g_cephVersion g) p]> (w_goroutines w)).

(** One operation, when the goroutine is at the place for it.  The flag
    operations are atomic under [orchMux].  The roles of a pass are started
    in one step: [doOrchestration] touches neither flag, so a flag
    operation of another goroutine that falls inside a pass is the same
    operation just before or just after it. *)
Definition act (E : Env) (a : action) (w : world) : option world :=
  let st := w_state w in
  match a with
  | Call rookImage cephVersion =>
      Some (mkWorld st
              (w_goroutines w ++ [mkGoroutine rookImage cephVersion AtRequest]))
  | Edit s =>
      Some (mkWorld (mkState (set_Spec s (obj st)) (mem st) (log st))
              (w_goroutines w))
  | Request i =>
      g ← w_goroutines w !! i;
      match g_place g with
      | AtRequest =>
          Some (move w i g (AtTest None)
                  (mkState (setOrchestrationNeeded (obj st)) (mem st) (log st)))
      | _ => None
      end
  | Test i =>
      g ← w_goroutines w !! i;
      match g_place g with
      | AtTest err =>
          let '(claimed, c) := checkSetOrchestrationStatus (obj st) in
          Some (move w i g (if claimed then AtCopy err else Gone err)
                  (mkState c (mem st) (log st)))
      | _ => None
      end
  | Copy i =>
      g ← w_goroutines w !! i;
      match g_place g with
      | AtCopy _ =>
          let '(spec, m) := DeepCopy (mem st) (Spec (obj st)) in
          Some (move w i g (AtPass spec) (mkState (obj st) m (log st)))
      | _ => None
      end
  | Pass i =>
      g ← w_goroutines w !! i;
      match g_place g with
      | AtPass spec =>
          let '(r, st') :=
            doOrchestration E (g_rookImage g) (g_cephVersion g) spec st in
          Some (move w i g (AtRelease (error_of r)) st')
      | _ => None
      end
  | Release i =>
      g ← w_goroutines w !! i;
      match g_place g with
      | AtRelease err =>
          Some (move w i g (AtTest err)
                  (mkState (unsetOrchestrationStatus (obj st)) (mem st) (log st)))
      | _ => None
      end
  end.

(** A sequence of operations; [None] when one of them is not the next
    operation of its goroutine. *)
Fixpoint run (E : Env) (t : list action) (w : world) : option world :=
  match t with
  | [] => Some w
  | a :: t => w' ← act E a w; run E t w'
  end.

















(** ** A concrete environment *)

(** The statements below are tried on, and instantiated at, this
    environment: a cluster whose identity is established, with a version
    parser for strings of the form [ceph version 14.2.4-12 ...]. *)

Definition digit (a : ascii) : option Z :=
  let n := nat_of_ascii a in
  if bool_decide (48 ≤ n ≤ 57) then Some (Z.of_nat (n - 48)) else None.

Fixpoint number (s : string) (acc : option Z) : option Z * string :=
  match s with
  | String a rest =>
      match digit a with
      | Some d => number rest (Some (10 * default 0 acc + d))%Z
      | None => (acc, s)
      end
  | EmptyString => (acc, s)
  end.

Definition component (s : string) : option (Z * string) :=
  match number s None with
  | (Some n, rest) => Some (n, rest)
  | (None, _) => None
  end.

Definition dot (s : string) : option string :=
  match s with
  | String "." rest => Some rest
  | _ => None
  end.

Definition strip (p s : string) : option string :=
  if String.prefix p s
  then Some (String.substring (String.length p)
               (String.length s - String.length p) s)
  else None.

Definition parseVersion (s : string) : option CephVersion :=
  s ← strip "ceph version " s;
  '(major, s) ← component s;
  s ← dot s;
  '(minor, s) ← component s;
  s ← dot s;
  '(extra, s) ← component s;
  Some (mkCephVersion major minor extra
          match s with
          | String "-" rest => default 0%Z (fst <$> component rest)
          | _ => 0%Z
          end).

Definition exampleInfo : ClusterInfo :=
  mkClusterInfo "a7f64266-0894-4f1e-a635-d0aeaca0e993" "AQBgh2Zd" 
    (mkCephVersion 14 2 4 0).

(** [running] is what the live cluster reports, [healthy] its health, and
    [monsErr] the error of [mons.Start], if any. *)
Definition exampleEnv (running : CephDaemonsVersions + error)
    (healthy : bool) (monsErr : option error) : Env :=
  {| Minimum := mkCephVersion 13 2 4 0;
     Supported := λ v, bool_decide (Major v = 13 ∨ Major v = 14)%Z;
     ExtractCephVersion := λ s,
       match parseVersion s with
       | Some v => inl v
       | None => inr (ErrExternal "failed to parse version")
       end;
     LoadClusterInfo := λ _, (Some exampleInfo, None);
     WriteConnectionConfig := λ _, None;
     mons_Start := λ info _ _ _ _,
       match monsErr with
       | Some e => (None, Some e)
       | None => (Some (default exampleInfo info), None)
       end;
     GetAllCephDaemonVersions := λ _, running;
     IsCephHealthy := λ _, healthy;
     CreateConfigMap := λ _ _, Some ErrAlreadyExists;
     mgr_Start := λ _, None;
     osd_Start := λ _, None;
     rbd_Start := λ _, None;
     GetMgrPlacement := λ t, default "" (t ≫= (.!! "mgr"));
     GetMgrAnnotations := λ t, default "" (t ≫= (.!! "mgr"));
     GetMgrResources := λ t, default "" (t ≫= (.!! "mgr"));
     GetOSDPlacement := λ t, default "" (t ≫= (.!! "osd"));
     GetOSDAnnotations := λ t, default "" (t ≫= (.!! "osd"));
     GetOSDResources := λ t, default "" (t ≫= (.!! "osd"));
     GetRBDMirrorPlacement := λ t, default "" (t ≫= (.!! "rbdmirror"));
     GetRBDMirrorAnnotations := λ t, default "" (t ≫= (.!! "rbdmirror"));
     GetRBDMirrorResources := λ t, default "" (t ≫= (.!! "rbdmirror"));
     cmp_Diff := λ _ _ _, Some "-old +new" |}.

(** A live cluster whose daemons all run the [versions]. *)
Definition reports (versions : gmap string nat) : CephDaemonsVersions :=
  mkVersions versions versions versions.

Definition v14_2_4 : string :=
  "ceph version 14.2.4 (75f4de193b3ea58512f204623e6c5a16e6c1e1ba) nautilus (stable)".

Definition v14_2_5 : string :=
  "ceph version 14.2.5 (ad5bd132e1492173c85fda2cc863152730b16a92) nautilus (stable)".

(** A spec with the node slice [nodes] and the data directory [dir]. *)
Definition exampleSpec (nodes : slice) (dir : string) : ClusterSpec :=
  {| CephVersionOf := mkCephVersionSpec "ceph/ceph:v14.2.4" false;
     Storage := mkStorage nodes false false;
     Annotations := Some {[ "mgr" := "prometheus.io/scrape" ]};
     Placement := None;
     Network := false;
     Resources := Some ∅;
     DataDirHostPath := dir;
     Dashboard := true;
     Monitoring := false;
     RBDMirroring := 0;
     Unread := "mon: {count: 3}" |}.

(** A cluster object as [newCluster] leaves it, with [children] as child
    controllers. *)
Definition exampleCluster (spec : ClusterSpec)
    (children : list childController) : cluster :=
  {| Info := None;
     Namespace := "rook-ceph";
     Spec := spec;
     crdName := "rook-ceph";
     initCompleted := false;
     ownerRef := "rook-ceph";
     orchestrationRunning := false;
     orchestrationNeeded := false;
     childControllers := children;
     isUpgrade := false |}.

Definition exampleState (spec : ClusterSpec) (children : list childController)
    (m : heap) : state :=
  mkState (exampleCluster spec children) m [].

(** The inputs of the examples. *)
Definition rookImage0 : string := "rook/ceph:v1.1.0".

Definition nautilus4 : CephVersion := mkCephVersion 14 2 4 0.
Definition nautilus5 : CephVersion := mkCephVersion 14 2 5 0.

Definition plainSpec : ClusterSpec := exampleSpec NilSlice "/var/lib/rook".
Definition editedSpec : ClusterSpec := exampleSpec NilSlice "/mnt/rook".

Definition plainState : state := exampleState plainSpec ["pool"] [].
Definition editedState : state := exampleState editedSpec ["pool"] [].

(** A healthy cluster on which nothing fails and no daemon reports a
    version. *)
Definition calmEnv : Env := exampleEnv (inl (reports ∅)) true None.

(** The daemons all run 14.2.5, resp. 14.2.4. *)
Definition runs5 : CephDaemonsVersions := reports {[ v14_2_5 := 3 ]}.
Definition runs4 : CephDaemonsVersions := reports {[ v14_2_4 := 3 ]}.

(** Other goroutines request an orchestration three times while the first
    pass runs. *)
Definition threeRequests : list turn :=
  [mkTurn [OtherRequest; OtherRequest] [OtherRequest] []].

(** The spec is edited right after the first pass has taken its copy. *)
Definition editAfterCopy : list turn :=
  [mkTurn [OtherSetSpec editedSpec] [] []].

(** Two goroutines have entered [createInstance]; the first one is inside
    its pass, the second one has found it running and has returned. *)
Definition exampleSystem : system :=
  mkSystem (set_orchestrationRunning true (exampleCluster plainSpec []))
    [InPass; Returned].

(** Two nodes of the same name, in one order in the array of the old spec
    and in the other order in the array of the new spec. *)
Definition twinA : Node := mkNode "node1" "rack1" (Some ["sdb"]) "".
Definition twinB : Node := mkNode "node1" "rack2" (Some ["sdc"]) "".
Definition twinsOld : ClusterSpec := exampleSpec (SliceOf 0) "/var/lib/rook".
Definition twinsNew : ClusterSpec := exampleSpec (SliceOf 1) "/var/lib/rook".
Definition twinsHeap : heap := [[twinA; twinB]; [twinB; twinA]].

(** Three nodes of different names, in two orders. *)
Definition nodeA : Node := mkNode "node-a" "rack1" (Some ["sdb"]) "".
Definition nodeB : Node := mkNode "node-b" "rack1" (Some ["sdb"; "sdc"]) "".
Definition nodeC : Node := mkNode "node-c" "rack2" None "".
Definition trioHeap : heap := [[nodeC; nodeA; nodeB]; [nodeB; nodeC; nodeA]].





(** ** Vocabulary of the statements *)

(** The desired version gets past the first two tests of
    [validateCephVersion]: it meets the minimum, and it is supported or the
    spec allows unsupported versions. *)
Definition admitted (E : Env) (version : CephVersion) (st : state) : Prop :=
  IsAtLeast version (Minimum E) = true
  ∧ (Supported E version = true
     ∨ AllowUnsupported (CephVersionOf (Spec (obj st))) = true).

(** The identity loaded for the cluster of [st] is established. *)
Definition established (E : Env) (st : state) : Prop :=
  IsInitialized (LoadClusterInfo E (Namespace (obj st))).1 = true.

(** The live cluster reports the running versions [rvs]. *)
Definition fetched (E : Env) (st : state) (rvs : CephDaemonsVersions) : Prop :=
  GetAllCephDaemonVersions E (Namespace (obj st)) = inl rvs.

(** The calls [validateCephVersion] makes before it compares versions. *)
Definition gateCalls (E : Env) (st : state) : list call :=
  let ns := Namespace (obj st) in
  CallLoadClusterInfo ns
  :: match (LoadClusterInfo E ns).2 with
     | None => [CallWriteConnectionConfig (LoadClusterInfo E ns).1]
     | Some _ => []
     end
  ++ [CallGetAllCephDaemonVersions ns].

Definition isHealthCheck (ev : call) : bool :=
  match ev with CallIsCephHealthy _ => true | _ => false end.

(** The calls of the phases that come after the mons: the three later
    roles and the notification of the children. *)
Definition afterMons (ev : call) : bool :=
  match ev with
  | CallMgrStart _ | CallOsdStart _ | CallRbdMirrorStart _
  | CallParentClusterChanged _ _ _ _ => true
  | _ => false
  end.

(** The spec a call hands to the mons, and the one it delivers to a child
    controller. *)
Definition monsSpec (ev : call) : option ClusterSpec :=
  match ev with CallMonsStart _ _ _ s _ => Some s | _ => None end.

Definition deliveredSpec (ev : call) : option ClusterSpec :=
  match ev with CallParentClusterChanged _ s _ _ => Some s | _ => None end.

(** The step before the mons lets the pass go on: the override configmap
    is created, or exists already. *)
Definition configMapReady (E : Env) (st : state) : Prop :=
  match CreateConfigMap E (Namespace (obj st)) (ownerRef (obj st)) with
  | Some e => IsAlreadyExists e = true
  | None => True
  end.

(** A name identifies a node of the list: two nodes of the list that have
    the same name are the same node. *)
Definition namesIdentify (l : list Node) : Prop :=
  ∀ x y, x ∈ l → y ∈ l → Name x = Name y → x = y.

(** The order in which [sort.Sort] leaves the nodes is fixed, whatever the
    release of the library: a name identifies a node, or the nodes are few
    enough for the insertion sort. *)
Definition orderIsFixed (l : list Node) : Prop :=
  namesIdentify l ∨ length l ≤ 6.

(** ** The rest of cluster.go *)

(** The [CephCluster] resource, as far as [newCluster] reads it. *)
Record CephCluster := mkCephCluster {
  crName : string;
  crNamespace : string;
  crUID : string;
  crSpec : ClusterSpec
}.

(** [newCluster]: the identity is not yet established, and the fields that
    are not set have their zero value.  [ClusterOwnerRef] is a function of
    the same package that is not in cluster.go; the handle on the mons is
    one of the collaborators. *)
Definition newCluster (ClusterOwnerRef : string → string → string)
    (c : CephCluster) : cluster :=
  {| Info := None;
     Namespace := crNamespace c;
     Spec := crSpec c;
     crdName := crName c;
     initCompleted := false;
     ownerRef := ClusterOwnerRef (crName c) (crUID c);
     orchestrationRunning := false;
     orchestrationNeeded := false;
     childControllers := [];
     isUpgrade := false |}.

Definition detectVersionName : string := "rook-ceph-detect-version".

(** What [cmdreporter.New] is given, and the service account the job is
    then made to run under. *)
Record reporterJob := mkJob {
  job_owner : string;
  job_appName : string;
  job_jobName : string;
  job_namespace : string;
  job_cmd : list string;
  job_args : list string;
  job_rookImage : string;
  job_runImage : string;
  job_serviceAccount : string
}.

(** Package [cmdreporter]: the error of [New], and what [Run] returns for
    a job and a timeout: stdout, stderr, the return code and an error. *)
Record CmdReporter := mkCmdReporter {
  cmdreporter_New : reporterJob → option error;
  cmdreporter_Run : reporterJob → Z → string * string * Z * option error
}.

(** The errors of [detectCephVersion], one per [fmt.Errorf]. *)
Inductive detectError :=
  | ErrSetUpJob (cause : error)
      (* "failed to set up ceph version job" *)
  | ErrCompleteJob (cause : error)
      (* "failed to complete ceph version job" *)
  | ErrRetcode (retcode : Z) (stdout stderr : string)
      (* "ceph version job returned failure with retcode %d" *)
  | ErrExtractVersion (cause : error).
      (* "failed to extract ceph version" *)

(** detectCephVersion loads the ceph version from the image. *)
Definition detectCephVersion (E : Env) (R : CmdReporter) (c : cluster)
    (rookImage cephImage : string) (timeout : Z) : CephVersion + detectError :=
  let job := mkJob (ownerRef c) detectVersionName detectVersionName
               (Namespace c) ["ceph"] ["--version"] rookImage cephImage "" in
  match cmdreporter_New R job with
  | Some err => inr (ErrSetUpJob err)
  | None =>
      let job := mkJob (job_owner job) (job_appName job) (job_jobName job)
                   (job_namespace job) (job_cmd job) (job_args job)
                   (job_rookImage job) (job_runImage job)
                   "rook-ceph-cmd-reporter" in
      match cmdreporter_Run R job timeout with
      | (_, _, _, Some err) => inr (ErrCompleteJob err)
      | (stdout, stderr, retcode, None) =>
          if bool_decide (retcode ≠ 0%Z) then
            inr (ErrRetcode retcode stdout stderr)
          else
            match ExtractCephVersion E stdout with
            | inr err => inr (ErrExtractVersion err)
            | inl version => inl version
            end
      end
  end.

(** The states several goroutines in [createInstance] get to from a new
    cluster object: nothing needed, nothing running. *)
Inductive started : system → Prop :=
  | started_new c :
      orchestrationNeeded c = false → orchestrationRunning c = false →
      started (mkSystem c [])
  | started_step s s' :
      started s → step s s' → started s'.

(** What the three later roles are created with in a pass on the copy
    [spec], when the cluster object is [c]. *)
Definition mgrConfig (E : Env) (rookImage : string) (spec : ClusterSpec)
    (c : cluster) : mgrCluster :=
  mkMgr (Info c) (Namespace c) rookImage (CephVersionOf spec)
    (GetMgrPlacement E (Placement spec))
    (GetMgrAnnotations E (Annotations (Spec c)))
    (Network spec) (Dashboard spec) (Monitoring spec)
    (GetMgrResources E (Resources spec)) (ownerRef c)
    (DataDirHostPath (Spec c)) (isUpgrade c).

Definition osdConfig (E : Env) (rookImage : string) (spec : ClusterSpec)
    (c : cluster) : osdCluster :=
  mkOsd (Info c) (Namespace c) rookImage (CephVersionOf spec)
    (Storage spec) (DataDirHostPath spec)
    (GetOSDPlacement E (Placement spec))
    (GetOSDAnnotations E (Annotations spec)) (Network spec)
    (GetOSDResources E (Resources spec)) (ownerRef c) (isUpgrade c).

Definition rbdConfig (E : Env) (rookImage : string) (spec : ClusterSpec)
    (c : cluster) : rbdMirroring :=
  mkRbd (Info c) (Namespace c) rookImage (CephVersionOf spec)
    (GetRBDMirrorPlacement E (Placement spec))
    (GetRBDMirrorAnnotations E (Annotations spec)) (Network spec)
    (RBDMirroring spec) (GetRBDMirrorResources E (Resources spec))
    (ownerRef c) (DataDirHostPath (Spec c)) (isUpgrade c).

(** The position of a call in a pass. *)
Definition phase (ev : call) : nat :=
  match ev with
  | CallCreateConfigMap _ _ => 1
  | CallMonsStart _ _ _ _ _ => 2
  | CallMgrStart _ => 4
  | CallOsdStart _ => 5
  | CallRbdMirrorStart _ => 6
  | CallParentClusterChanged _ _ _ _ => 8
  | _ => 0
  end.

(** [r] is a success. *)
Definition succeeded {A} (r : result A) : bool :=
  match r with Return _ => true | Fail _ => false end.

(** The state in which the first pass of [createInstance] starts when no
    other goroutine interferes: the request is made and claimed, and the
    spec is copied. *)
Definition passState (st : state) : state :=
  mkState
    (set_orchestrationRunning true
       (set_orchestrationNeeded false (setOrchestrationNeeded (obj st))))
    (DeepCopy (mem st) (Spec (obj st))).2 (log st).

(** A reporter whose job prints [stdout] and exits with [retcode]. *)
Definition exampleReporter (stdout : string) (retcode : Z) : CmdReporter :=
  mkCmdReporter (λ _, None) (λ _ _, (stdout, "", retcode, None)).



(** An environment like [calmEnv] but for the identity that is loaded,
    the answer of the configmap creation and the answer of the mons. *)
Definition customEnv (load : option ClusterInfo * option error)
    (configMap : option error) (mons : option ClusterInfo * option error)
    : Env :=
  {| Minimum := Minimum calmEnv;
     Supported := Supported calmEnv;
     ExtractCephVersion := ExtractCephVersion calmEnv;
     LoadClusterInfo := λ _, load;
     WriteConnectionConfig := WriteConnectionConfig calmEnv;
     mons_Start := λ _ _ _ _ _, mons;
     GetAllCephDaemonVersions := GetAllCephDaemonVersions calmEnv;
     IsCephHealthy := IsCephHealthy calmEnv;
     CreateConfigMap := λ _ _, configMap;
     mgr_Start := mgr_Start calmEnv;
     osd_Start := osd_Start calmEnv;
     rbd_Start := rbd_Start calmEnv;
     GetMgrPlacement := GetMgrPlacement calmEnv;
     GetMgrAnnotations := GetMgrAnnotations calmEnv;
     GetMgrResources := GetMgrResources calmEnv;
     GetOSDPlacement := GetOSDPlacement calmEnv;
     GetOSDAnnotations := GetOSDAnnotations calmEnv;
     GetOSDResources := GetOSDResources calmEnv;
     GetRBDMirrorPlacement := GetRBDMirrorPlacement calmEnv;
     GetRBDMirrorAnnotations := GetRBDMirrorAnnotations calmEnv;
     GetRBDMirrorResources := GetRBDMirrorResources calmEnv;
     cmp_Diff := cmp_Diff calmEnv |}.

(** A version older than the minimum of the example environments. *)
Definition luminous : CephVersion := mkCephVersion 12 2 12 0.

(** A state in which another goroutine is inside a pass. *)
Definition busyState : state :=
  mkState (set_orchestrationRunning true (exampleCluster plainSpec ["pool"]))
    [] [].

(** One goroutine has made its request and stands at the loop condition;
    resp. it has run its pass, released, found nothing more to do and
    returned. *)
Definition waitingSystem : system :=
  mkSystem (setOrchestrationNeeded (exampleCluster plainSpec [])) [AtCondition].

Definition drainedSystem : system :=
  mkSystem (exampleCluster plainSpec []) [Returned].

(** * Properties *)

(** ** Versions *)

Lemma IsSuperior_IsInferior a b : IsSuperior a b = IsInferior b a.
Proof.
  unfold IsSuperior, IsInferior.
  repeat case_bool_decide; try done; lia.
Qed.

Lemma IsSuperior_not_identical a b :
  IsSuperior a b = true → IsIdentical a b = false ∧ IsIdentical b a = false.
Proof.
  unfold IsSuperior, IsIdentical.
  repeat case_bool_decide; try done; intros _; lia.
Qed.

Lemma IsSuperior_asym a b : IsSuperior a b = true → IsSuperior b a = false.
Proof.
  unfold IsSuperior.
  repeat case_bool_decide; try done; intros _; lia.
Qed.

(** Exactly one of superior, inferior, identical holds. *)
Lemma version_trichotomy a b :
  (IsSuperior a b = true ∧ IsInferior a b = false ∧ IsIdentical a b = false)
  ∨ (IsSuperior a b = false ∧ IsInferior a b = true ∧ IsIdentical a b = false)
  ∨ (IsSuperior a b = false ∧ IsInferior a b = false ∧ IsIdentical a b = true).
Proof.
  unfold IsSuperior, IsInferior, IsIdentical.
  repeat case_bool_decide; try lia; auto.
Qed.

(** ** The upgrade gate *)

Section Gate.

Context (E : Env).

Lemma diff_no_versions version rvs :
  size (Overall rvs) = 0 →
  diffImageSpecAndClusterRunningVersion E version rvs = (false, Some ErrNoOverall).
Proof.
  intros H. unfold diffImageSpecAndClusterRunningVersion.
  rewrite H. done.
Qed.

Lemma diff_several_versions version rvs :
  1 < size (Overall rvs) →
  diffImageSpecAndClusterRunningVersion E version rvs = (true, None).
Proof.
  intros H. unfold diffImageSpecAndClusterRunningVersion.
  rewrite bool_decide_eq_false_2 by lia.
  by rewrite bool_decide_eq_true_2.
Qed.

Lemma diff_one_version version rvs v n :
  Overall rvs = {[ v := n ]} →
  diffImageSpecAndClusterRunningVersion E version rvs
  = rangeOverall E version [(v, n)].
Proof.
  intros H. unfold diffImageSpecAndClusterRunningVersion.
  rewrite H, map_size_singleton, map_to_list_singleton. done.
Qed.

(** With a desired version that is admitted, an established identity and
    the running versions at hand, [validateCephVersion] is decided by
    [diffImageSpecAndClusterRunningVersion]. *)
Lemma validateCephVersion_at_gate version st rvs :
  admitted E version st → established E st → fetched E st rvs →
  validateCephVersion E version st =
    let ns := Namespace (obj st) in
    let st' := mkState (obj st) (mem st) (log st ++ gateCalls E st) in
    match diffImageSpecAndClusterRunningVersion E version rvs with
    | (_, Some _) => (Return (), st')
    | (true, None) =>
        let st'' := mkState (obj st) (mem st)
                      (log st ++ gateCalls E st ++ [CallIsCephHealthy ns]) in
        if IsCephHealthy E ns
        then (Return (), mkState (set_isUpgrade true (obj st)) (mem st) (log st''))
        else (Fail (ErrNotHealthy ns), st'')
    | (false, None) => (Return (), st')
    end.
Proof.
  intros [Hmin Hsup] Hest Hfetch.
  unfold established, fetched, gateCalls in *.
  unfold validateCephVersion. rewrite Hmin. simpl.
  unfold mbind, Op_bind, get_cluster, outgoing, mret, Op_ret, fail,
    modify_cluster. simpl.
  assert (negb (Supported E version)
          && negb (AllowUnsupported (CephVersionOf (Spec (obj st)))) = false)
    as -> by (destruct Hsup as [-> | ->]; simpl; by rewrite ?andb_false_r).
  destruct (LoadClusterInfo E (Namespace (obj st))) as [info err] eqn:Hload.
  simpl in *.
  destruct err as [e|]; simpl; rewrite Hest; simpl; rewrite Hfetch;
    destruct (diffImageSpecAndClusterRunningVersion E version rvs)
      as [[] [e'|]]; simpl; rewrite <- ?app_assoc; simpl; try done;
    destruct (IsCephHealthy E (Namespace (obj st))); simpl;
    rewrite <- ?app_assoc; done.
Qed.

End Gate.

Section GateClaims.

Context (E : Env).

(** Whatever the outcome of the first tests, the health of the cluster is
    only asked for when the comparison of the versions says "upgrade" and
    has no error. *)
Lemma validateCephVersion_health_check version st rvs :
  fetched E st rvs →
  diffImageSpecAndClusterRunningVersion E version rvs ≠ (true, None) →
  ∃ calls,
    log (validateCephVersion E version st).2 = log st ++ calls
    ∧ Forall (λ ev, isHealthCheck ev = false) calls
    ∧ obj (validateCephVersion E version st).2 = obj st.
Proof.
  intros Hfetch Hdiff. unfold fetched in Hfetch.
  unfold validateCephVersion.
  destruct (IsAtLeast version (Minimum E)); simpl;
    [|exists []; by rewrite app_nil_r].
  unfold mbind, Op_bind, get_cluster, outgoing, mret, Op_ret, fail,
    modify_cluster. simpl.
  destruct (negb (Supported E version)
            && negb (AllowUnsupported (CephVersionOf (Spec (obj st)))));
    simpl; [exists []; by rewrite app_nil_r|].
  destruct (LoadClusterInfo E (Namespace (obj st))) as [info [e|]]; simpl;
    destruct (IsInitialized info); simpl; rewrite ?Hfetch;
    destruct (diffImageSpecAndClusterRunningVersion E version rvs)
      as [[] [e'|]]; simpl; try done; rewrite <- ?app_assoc;
    (eexists; split; [reflexivity|]; split; [|done]);
    repeat constructor.
Qed.

(** C7: when the live cluster reports exactly one version and it is
    identical to the desired one, [diffImageSpecAndClusterRunningVersion]
    returns [false] with no error, and a [validateCephVersion] that is
    given these running versions makes no health check (and leaves the
    cluster object, hence [isUpgrade], as it was). *)
Theorem identical_version_needs_no_upgrade version st rvs v n running :
  Overall rvs = {[ v := n ]} →
  ExtractCephVersion E v = inl running →
  IsIdentical running version = true →
  diffImageSpecAndClusterRunningVersion E version rvs = (false, None)
  ∧ (fetched E st rvs →
     ∃ calls,
       log (validateCephVersion E version st).2 = log st ++ calls
       ∧ Forall (λ ev, isHealthCheck ev = false) calls
       ∧ obj (validateCephVersion E version st).2 = obj st).
Proof.
  intros Hone Hparse Hsame.
  assert (diffImageSpecAndClusterRunningVersion E version rvs = (false, None))
    as Hdiff.
  { rewrite (diff_one_version E _ _ _ _ Hone). simpl.
    by rewrite Hparse, Hsame. }
  split; [done|]. intros Hfetch.
  apply (validateCephVersion_health_check version st rvs Hfetch).
  by rewrite Hdiff.
Qed.

(** C4: with an admitted desired version, an established identity and
    running versions that call for an upgrade (more than one version, or
    one version strictly below the desired one), the comparison says
    "upgrade" and [validateCephVersion] asks for the health of the cluster:
    unhealthy, it returns the refusal to upgrade and leaves the cluster
    object alone, [isUpgrade] included; healthy, it returns nil and
    [isUpgrade] is true afterwards, the rest of the cluster object being
    as it was. *)
Theorem upgrade_needs_healthy_cluster version st rvs :
  admitted E version st → established E st → fetched E st rvs →
  (1 < size (Overall rvs)
   ∨ ∃ v n running,
       Overall rvs = {[ v := n ]}
       ∧ ExtractCephVersion E v = inl running
       ∧ IsInferior running version = true) →
  diffImageSpecAndClusterRunningVersion E version rvs = (true, None)
  ∧ log (validateCephVersion E version st).2
    = log st ++ gateCalls E st ++ [CallIsCephHealthy (Namespace (obj st))]
  ∧ if IsCephHealthy E (Namespace (obj st))
    then (validateCephVersion E version st).1 = Return ()
         ∧ isUpgrade (obj (validateCephVersion E version st).2) = true
         ∧ obj (validateCephVersion E version st).2
           = set_isUpgrade true (obj st)
    else (validateCephVersion E version st).1
           = Fail (ErrNotHealthy (Namespace (obj st)))
         ∧ isUpgrade (obj (validateCephVersion E version st).2)
           = isUpgrade (obj st)
         ∧ obj (validateCephVersion E version st).2 = obj st.
Proof.
  intros Hadm Hest Hfetch Hneed.
  assert (diffImageSpecAndClusterRunningVersion E version rvs = (true, None))
    as Hdiff.
  { destruct Hneed as [Hmany | (v & n & running & Hone & Hparse & Hlow)].
    - by apply diff_several_versions.
    - rewrite (diff_one_version E _ _ _ _ Hone). simpl. rewrite Hparse.
      rewrite <- IsSuperior_IsInferior in Hlow.
      destruct (IsSuperior_not_identical _ _ Hlow) as [_ ->].
      by rewrite Hlow. }
  split; [done|].
  rewrite (validateCephVersion_at_gate E version st rvs Hadm Hest Hfetch).
  rewrite Hdiff. cbv zeta.
  destruct (IsCephHealthy E (Namespace (obj st))); done.
Qed.

(** The amended C6: with an admitted desired version and an established
    identity, running versions with an empty [Overall] make
    [diffImageSpecAndClusterRunningVersion] return its "no overall
    section" error, which [validateCephVersion] does not pass on: it
    returns nil after the three calls that lead to the comparison, with no
    health check and the cluster object as it was. *)
Theorem no_versions_is_not_fatal version st rvs :
  admitted E version st → established E st → fetched E st rvs →
  size (Overall rvs) = 0 →
  diffImageSpecAndClusterRunningVersion E version rvs
    = (false, Some ErrNoOverall)
  ∧ validateCephVersion E version st
    = (Return (), mkState (obj st) (mem st) (log st ++ gateCalls E st)).
Proof.
  intros Hadm Hest Hfetch Hzero.
  pose proof (diff_no_versions E version rvs Hzero) as Hdiff.
  split; [done|].
  rewrite (validateCephVersion_at_gate E version st rvs Hadm Hest Hfetch).
  by rewrite Hdiff.
Qed.

(** With one running version strictly above the desired one, the
    comparison returns the downgrade error, and [validateCephVersion]
    returns nil all the same. *)
Lemma validateCephVersion_downgrade version st rvs v n running :
  admitted E version st → established E st → fetched E st rvs →
  Overall rvs = {[ v := n ]} →
  ExtractCephVersion E v = inl running →
  IsSuperior running version = true →
  diffImageSpecAndClusterRunningVersion E version rvs
    = (true, Some (ErrDowngrade version running))
  ∧ validateCephVersion E version st
    = (Return (), mkState (obj st) (mem st) (log st ++ gateCalls E st)).
Proof.
  intros Hadm Hest Hfetch Hone Hparse Hhigh.
  assert (diffImageSpecAndClusterRunningVersion E version rvs
          = (true, Some (ErrDowngrade version running))) as Hdiff.
  { rewrite (diff_one_version E _ _ _ _ Hone). simpl. rewrite Hparse.
    destruct (IsSuperior_not_identical _ _ Hhigh) as [-> _].
    rewrite (IsSuperior_asym _ _ Hhigh).
    by rewrite <- IsSuperior_IsInferior, Hhigh. }
  split; [done|].
  rewrite (validateCephVersion_at_gate E version st rvs Hadm Hest Hfetch).
  by rewrite Hdiff.
Qed.

End GateClaims.

(** ** The role sequencer *)

Ltac run_op :=
  unfold mbind, Op_bind, get_cluster, outgoing, mret, Op_ret, fail,
    modify_cluster, check_err; simpl.

(** Case analysis on an answer of the environment: on the scrutinee of a
    [match] that is not itself a [match]. *)
Ltac case_answer :=
  match goal with
  | |- context [match ?x with _ => _ end] =>
      lazymatch x with
      | context [match _ with _ => _ end] => fail
      | _ => destruct x eqn:?
      end
  end; simpl.

Lemma notifyChildren_calls children info st :
  notifyChildren children info st
  = (Return (),
     mkState (obj st) (mem st)
       (log st ++ map (λ child, CallParentClusterChanged child (Spec (obj st))
                                  info (isUpgrade (obj st))) children)).
Proof.
  revert st. induction children as [|child rest IH]; intros st; simpl.
  - rewrite app_nil_r. by destruct st.
  - run_op. rewrite IH. simpl. by rewrite <- app_assoc.
Qed.

Section Sequencer.

Context (E : Env).

(** A pass touches neither the orchestration flags nor the spec of the
    cluster object, nor the backing store. *)
Lemma doOrchestration_frame rookImage cephVersion spec st :
  let st' := (doOrchestration E rookImage cephVersion spec st).2 in
  orchestrationNeeded (obj st') = orchestrationNeeded (obj st)
  ∧ orchestrationRunning (obj st') = orchestrationRunning (obj st)
  ∧ Spec (obj st') = Spec (obj st)
  ∧ mem st' = mem st.
Proof.
  unfold doOrchestration. run_op.
  repeat (case_answer; try done).
  all: by rewrite notifyChildren_calls.
Qed.

(** C8: when [mons.Start] answers with an error, the pass fails, makes no
    call of a later phase (no manager, storage-node or mirroring role is
    started and no child controller is notified), and leaves the cluster
    object as it was, [initCompleted] included; past the configmap step,
    the failure returned is the one of the mons and the only calls made
    are the creation of the configmap and [mons.Start]. *)
Theorem mons_failure_aborts_pass rookImage cephVersion spec st info e :
  mons_Start E (Info (obj st)) rookImage cephVersion (Spec (obj st))
    (isUpgrade (obj st)) = (info, Some e) →
  let r := (doOrchestration E rookImage cephVersion spec st).1 in
  let st' := (doOrchestration E rookImage cephVersion spec st).2 in
  error_of r ≠ None
  ∧ (∃ calls, log st' = log st ++ calls
              ∧ Forall (λ ev, afterMons ev = false) calls)
  ∧ obj st' = obj st
  ∧ initCompleted (obj st') = initCompleted (obj st)
  ∧ (configMapReady E st →
     r = Fail (ErrMonStart e)
     ∧ log st' = log st
         ++ [CallCreateConfigMap (Namespace (obj st)) (ownerRef (obj st));
             CallMonsStart (Info (obj st)) rookImage cephVersion
               (Spec (obj st)) (isUpgrade (obj st))]).
Proof.
  intros Hmons. unfold configMapReady, doOrchestration. run_op.
  destruct (CreateConfigMap E (Namespace (obj st)) (ownerRef (obj st)))
    as [e0|]; simpl.
  - destruct (IsAlreadyExists e0); simpl; rewrite ?Hmons; simpl.
    + rewrite <- app_assoc. simpl.
      repeat split; try done.
      eexists; split; [reflexivity|]. by repeat constructor.
    + repeat split; try done.
      eexists; split; [reflexivity|]. by repeat constructor.
  - rewrite Hmons. simpl. rewrite <- app_assoc. simpl.
    repeat split; try done.
    eexists; split; [reflexivity|]. by repeat constructor.
Qed.

(** Whatever spec copy a pass is given, the spec its mons are started with
    is the one the cluster object holds at that time. *)
Lemma doOrchestration_mons_spec rookImage cephVersion spec st :
  configMapReady E st →
  ∃ calls,
    log (doOrchestration E rookImage cephVersion spec st).2
      = log st ++ calls
    ∧ omap monsSpec calls = [Spec (obj st)].
Proof.
  unfold configMapReady, doOrchestration. run_op.
  destruct (CreateConfigMap E (Namespace (obj st)) (ownerRef (obj st)))
    as [e0|]; simpl.
  - intros ->. simpl.
    repeat case_answer; rewrite ?notifyChildren_calls; simpl;
      rewrite <- ?app_assoc; (eexists; split; [reflexivity|]); simpl;
      try done.
    by induction (childControllers (obj st)).
  - intros _.
    repeat case_answer; rewrite ?notifyChildren_calls; simpl;
      rewrite <- ?app_assoc; (eexists; split; [reflexivity|]); simpl;
      try done.
    by induction (childControllers (obj st)).
Qed.

(** Whatever spec copy a successful pass is given, the spec it delivers to
    each child controller is the one the cluster object holds. *)
Lemma doOrchestration_delivered_spec rookImage cephVersion spec st :
  (doOrchestration E rookImage cephVersion spec st).1 = Return () →
  ∃ calls,
    log (doOrchestration E rookImage cephVersion spec st).2
      = log st ++ calls
    ∧ omap deliveredSpec calls
      = replicate (length (childControllers (obj st))) (Spec (obj st)).
Proof.
  unfold doOrchestration. run_op.
  repeat (case_answer; try done).
  all: rewrite notifyChildren_calls; simpl; intros _.
  all: rewrite <- ?app_assoc; (eexists; split; [reflexivity|]); simpl.
  all: induction (childControllers (obj st)); simpl; by f_equal.
Qed.

End Sequencer.

(** ** The scheduler *)

Lemma checkSetOrchestrationStatus_claims c :
  orchestrationNeeded c = true → orchestrationRunning c = false →
  checkSetOrchestrationStatus c
  = (true, set_orchestrationRunning true (set_orchestrationNeeded false c)).
Proof.
  intros Hn Hr. unfold checkSetOrchestrationStatus. by rewrite Hn, Hr.
Qed.

Lemma checkSetOrchestrationStatus_declines c :
  orchestrationNeeded c = false ∨ orchestrationRunning c = true →
  checkSetOrchestrationStatus c = (false, c).
Proof.
  unfold checkSetOrchestrationStatus.
  intros [-> | ->]; simpl; by rewrite ?andb_false_r.
Qed.

(** *** Counting goroutines and passes *)








Section Scheduler.

Context (E : Env).


(** *** One operation *)










(** *** Every execution can be completed *)














(** A goroutine that is left alone does, operation by operation, what
    [createInstance] does. *)
Lemma createInstance_as_operations rookImage cephVersion st :
  orchestrationRunning (obj st) = false →
  ∃ err spec st',
    createInstance E 2 [] rookImage cephVersion st = Some (err, [spec], st')
    ∧ run E [Call rookImage cephVersion; Request 0; Test 0; Copy 0; Pass 0;
             Release 0; Test 0] (mkWorld st [])
      = Some (mkWorld st' [mkGoroutine rookImage cephVersion (Gone err)]).
Proof.
  intros Hrun. unfold createInstance, act. simpl. unfold act. simpl.
  rewrite ?checkSetOrchestrationStatus_claims by done. simpl.
  destruct (DeepCopy (mem st) (Spec (obj st))) as [spec m] eqn:Hcopy.
  simpl. unfold act. simpl. rewrite ?Hcopy. simpl. unfold act. simpl.
  destruct (doOrchestration_frame E rookImage cephVersion spec
              (mkState (set_orchestrationRunning true
                          (set_orchestrationNeeded false
                             (setOrchestrationNeeded (obj st)))) m (log st)))
    as (Hn & Hr & _).
  destruct (doOrchestration E rookImage cephVersion spec _) as [r st2].
  simpl in *. unfold act. simpl.
  rewrite !checkSetOrchestrationStatus_declines by (by left). simpl.
  by exists (error_of r), spec, (mkState (unsetOrchestrationStatus (obj st2))
                                   (mem st2) (log st2)).
Qed.


End Scheduler.

(** *** Mutual exclusion *)

Lemma claimants_insert gs i p q :
  gs !! i = Some p →
  length (filter (λ p, p = InPass) (<[i := q]> gs))
    + (if decide (p = InPass) then 1 else 0)
  = length (filter (λ p, p = InPass) gs)
    + (if decide (q = InPass) then 1 else 0).
Proof.
  revert i. induction gs as [|g gs IH]; intros [|i] Hi; simplify_eq /=.
  - rewrite !filter_cons. repeat case_decide; simpl; lia.
  - rewrite !filter_cons. specialize (IH i Hi).
    repeat case_decide; simpl in *; lia.
Qed.

(** The flag [orchestrationRunning] counts the goroutines inside a pass. *)
Lemma running_counts_claimants s :
  reachable s →
  length (claimants s) = if orchestrationRunning (shared s) then 1 else 0.
Proof.
  unfold claimants.
  induction 1 as [c Hc | s s' Hreach IH Hstep]; simpl.
  - by rewrite Hc.
  - destruct Hstep as [c gs | c gs i Hi | c gs i Hi | c gs i Hi];
      simpl in *.
    + rewrite filter_app, length_app. simpl. lia.
    + pose proof (claimants_insert gs i _ AtCondition Hi) as Hins.
      repeat case_decide; try done. simpl in Hins. lia.
    + unfold checkSetOrchestrationStatus.
      destruct (orchestrationNeeded c), (orchestrationRunning c) eqn:Hrun;
        simpl in *; rewrite ?Hrun.
      * pose proof (claimants_insert gs i _ Returned Hi) as Hins.
        repeat case_decide; try done. simpl in Hins. lia.
      * pose proof (claimants_insert gs i _ InPass Hi) as Hins.
        repeat case_decide; try done. simpl in Hins. lia.
      * pose proof (claimants_insert gs i _ Returned Hi) as Hins.
        repeat case_decide; try done. simpl in Hins. lia.
      * pose proof (claimants_insert gs i _ Returned Hi) as Hins.
        repeat case_decide; try done. simpl in Hins. lia.
    + pose proof (claimants_insert gs i _ AtCondition Hi) as Hins.
      repeat case_decide; try done. simpl in Hins.
      destruct (orchestrationRunning c); lia.
Qed.

(** C2: [checkSetOrchestrationStatus] returns true exactly when an
    orchestration is needed and none is running, and then clears
    [orchestrationNeeded] and sets [orchestrationRunning]; when it returns
    false the cluster object is as it was.  Hence, however the goroutines
    in [createInstance] interleave, at most one of them is inside a pass,
    and one is exactly when [orchestrationRunning] is set. *)
Theorem claim_is_exclusive (c : cluster) (s : system) :
  reachable s →
  ((checkSetOrchestrationStatus c).1 = true
   ↔ orchestrationNeeded c = true ∧ orchestrationRunning c = false)
  ∧ ((checkSetOrchestrationStatus c).1 = true →
     (checkSetOrchestrationStatus c).2
       = set_orchestrationRunning true (set_orchestrationNeeded false c)
     ∧ orchestrationNeeded (checkSetOrchestrationStatus c).2 = false
     ∧ orchestrationRunning (checkSetOrchestrationStatus c).2 = true)
  ∧ ((checkSetOrchestrationStatus c).1 = false →
     (checkSetOrchestrationStatus c).2 = c)
  ∧ length (claimants s) ≤ 1
  ∧ (length (claimants s) = 1 ↔ orchestrationRunning (shared s) = true).
Proof.
  intros Hreach.
  pose proof (running_counts_claimants s Hreach) as Hcount.
  repeat split.
  - unfold checkSetOrchestrationStatus in H.
    by destruct (orchestrationNeeded c), (orchestrationRunning c).
  - unfold checkSetOrchestrationStatus in H.
    by destruct (orchestrationNeeded c), (orchestrationRunning c).
  - intros [Hn Hr]. by rewrite checkSetOrchestrationStatus_claims.
  - unfold checkSetOrchestrationStatus in *.
    by destruct (orchestrationNeeded c), (orchestrationRunning c).
  - unfold checkSetOrchestrationStatus in *.
    by destruct (orchestrationNeeded c), (orchestrationRunning c).
  - unfold checkSetOrchestrationStatus in *.
    by destruct (orchestrationNeeded c), (orchestrationRunning c).
  - unfold checkSetOrchestrationStatus in *.
    by destruct (orchestrationNeeded c), (orchestrationRunning c).
  - rewrite Hcount. destruct (orchestrationRunning (shared s)); lia.
  - rewrite Hcount. by destruct (orchestrationRunning (shared s)).
  - intros Hrun. by rewrite Hcount, Hrun.
Qed.

(** ** The spec differ *)

(** *** Ordering nodes by name *)

Lemma Less_leb a b : Less b a = negb (String.leb (Name a) (Name b)).
Proof.
  unfold Less, String.ltb, String.leb.
  rewrite (String.compare_antisym (Name a) (Name b)).
  by destruct (String.compare (Name b) (Name a)).
Qed.

Lemma by_name_le a b : by_name a b ↔ String.le (Name a) (Name b).
Proof.
  unfold by_name, String.le. rewrite Less_leb.
  destruct (String.leb (Name a) (Name b)); simpl; naive_solver.
Qed.

Lemma by_name_trans a b c : by_name a b → by_name b c → by_name a c.
Proof. rewrite !by_name_le. apply transitivity. Qed.

Lemma by_name_total a b : by_name a b ∨ by_name b a.
Proof. rewrite !by_name_le. apply String.le_total. Qed.

Lemma by_name_antisym a b : by_name a b → by_name b a → Name a = Name b.
Proof. rewrite !by_name_le. apply (anti_symm String.le). Qed.

Lemma Less_by_name a b : Less a b = true → by_name a b.
Proof.
  intros H. destruct (by_name_total a b) as [|Hba]; [done|].
  unfold by_name in Hba. congruence.
Qed.

(** *** Insertion sort *)

Lemma insert_perm x l : insert x l ≡ₚ x :: l.
Proof.
  induction l as [|y l IH]; simpl; [done|].
  destruct (Less x y); [done|].
  rewrite IH. apply perm_swap.
Qed.

Lemma insert_HdRel y x l :
  by_name y x → HdRel by_name y l → HdRel by_name y (insert x l).
Proof.
  intros Hyx Hhd. destruct l as [|z l]; simpl.
  - by constructor.
  - destruct (Less x z); constructor; [done|].
    by inv Hhd.
Qed.

Lemma insert_sorted x l : Sorted by_name l → Sorted by_name (insert x l).
Proof.
  induction 1 as [|y l Hsorted IH Hhd]; simpl.
  - by repeat constructor.
  - destruct (Less x y) eqn:Hxy.
    + constructor; [by constructor|].
      constructor. by apply Less_by_name.
    + constructor; [done|]. by apply insert_HdRel.
Qed.

Lemma fold_insert_perm l : ∀ acc,
  fold_left (λ sorted x, insert x sorted) l acc ≡ₚ acc ++ l.
Proof.
  induction l as [|x l IH]; intros acc; simpl.
  - by rewrite app_nil_r.
  - rewrite IH, insert_perm. by rewrite <- Permutation_middle.
Qed.

Lemma fold_insert_sorted l : ∀ acc,
  Sorted by_name acc →
  Sorted by_name (fold_left (λ sorted x, insert x sorted) l acc).
Proof.
  induction l as [|x l IH]; intros acc Hacc; simpl; [done|].
  by apply IH, insert_sorted.
Qed.

Lemma insertionSort_perm l : insertionSort l ≡ₚ l.
Proof. unfold insertionSort. by rewrite fold_insert_perm. Qed.

Lemma insertionSort_sorted l : Sorted by_name (insertionSort l).
Proof. apply fold_insert_sorted. constructor. Qed.

(** The insertion sort is a sort, and the one the library runs on short
    slices. *)
Definition insertionSorter : Sorter :=
  mkSorter insertionSort insertionSort_perm insertionSort_sorted
    (λ l _, eq_refl).

(** *** Lists in which a name identifies a node *)

Lemma NoDup_names_identify (l : list Node) :
  NoDup (Name <$> l) → namesIdentify l.
Proof.
  induction l as [|z l IH]; intros Hnd x y Hx Hy Hn; [by inv Hx|].
  rewrite fmap_cons in Hnd. apply NoDup_cons in Hnd as [Hz Hnd].
  inv Hx; inv Hy; try done.
  - exfalso. apply Hz. rewrite Hn. by apply list_elem_of_fmap_2.
  - exfalso. apply Hz. rewrite <- Hn. by apply list_elem_of_fmap_2.
  - by apply IH.
Qed.

Lemma namesIdentify_perm l1 l2 :
  l1 ≡ₚ l2 → namesIdentify l1 → namesIdentify l2.
Proof.
  intros Hperm Hid x y Hx Hy. apply Hid; by rewrite Hperm.
Qed.

(** Two lists of the same nodes, both sorted by name, are equal when a
    name identifies a node: what [sort.Sort] returns then does not depend
    on how it sorts. *)
Lemma sorted_by_name_unique l1 l2 :
  namesIdentify l1 → l1 ≡ₚ l2 →
  Sorted by_name l1 → Sorted by_name l2 → l1 = l2.
Proof.
  intros Hid Hperm H1 H2.
  apply (StronglySorted_unique_strong by_name); [|..|done].
  - intros x1 x2 Hx1 Hx2 H12 H21.
    apply Hid; [done|by rewrite Hperm|by apply by_name_antisym].
  - apply Sorted.Sorted_StronglySorted; [|done].
    intros a b c. apply by_name_trans.
  - apply Sorted.Sorted_StronglySorted; [|done].
    intros a b c. apply by_name_trans.
Qed.

Section Differ.

Context (E : Env) (sorter : Sorter).

Lemma sortNodes_nil : sortNodes sorter [] = [].
Proof. by rewrite sortNodes_short by (simpl; lia). Qed.

Lemma sortNodes_reorder l1 l2 :
  namesIdentify l1 → l1 ≡ₚ l2 → sortNodes sorter l1 = sortNodes sorter l2.
Proof.
  intros Hid Hperm. apply sorted_by_name_unique.
  - apply (namesIdentify_perm l1); [|done]. by rewrite sortNodes_perm.
  - by rewrite !sortNodes_perm.
  - apply sortNodes_sorted.
  - apply sortNodes_sorted.
Qed.

(** *** Sorting in place *)

Lemma read_sort_same m s :
  read (sort_Sort sorter m s) s = sortNodes sorter (read m s).
Proof.
  destruct s as [|a]; [symmetry; apply sortNodes_nil|].
  unfold read, sort_Sort.
  destruct (decide (a < length m)) as [Hlt|Hge].
  - by rewrite list_lookup_insert_eq.
  - rewrite list_insert_ge by lia.
    rewrite (lookup_ge_None_2 m a) by lia. simpl.
    by rewrite sortNodes_nil.
Qed.

Lemma read_sort_other m s s' :
  s ≠ s' → read (sort_Sort sorter m s) s' = read m s'.
Proof.
  destruct s as [|a], s' as [|b]; try done. unfold read, sort_Sort.
  intros Hne. rewrite list_lookup_insert_ne; [done|]. congruence.
Qed.

Lemma read_sort_sorted m s s' :
  Sorted by_name (read m s') →
  Sorted by_name (read (sort_Sort sorter m s) s').
Proof.
  intros Hsorted. destruct (decide (s = s')) as [->|Hne].
  - rewrite read_sort_same. apply sortNodes_sorted.
  - by rewrite read_sort_other.
Qed.

Lemma read_sort_perm m s s' : read (sort_Sort sorter m s) s' ≡ₚ read m s'.
Proof.
  destruct (decide (s = s')) as [->|Hne].
  - rewrite read_sort_same. apply sortNodes_perm.
  - by rewrite read_sort_other.
Qed.

Lemma read_sort_length m s s' :
  length (read (sort_Sort sorter m s) s') = length (read m s').
Proof. apply Permutation_length, read_sort_perm. Qed.

(** The backing store after [clusterChanged], whatever it reports. *)
Lemma clusterChanged_heap oldCluster newCluster clusterRef m :
  (clusterChanged E sorter oldCluster newCluster clusterRef m).2
  = sort_Sort sorter (sort_Sort sorter m (Nodes (Storage oldCluster)))
      (Nodes (Storage newCluster)).
Proof. unfold clusterChanged. by case_match. Qed.

(** C10: [clusterChanged] sorts the backing arrays of the node slices of
    both its arguments: after every call, whether it reports a change or
    not, the nodes seen through the slice of the old spec and through the
    slice of the new spec are the same nodes as before, sorted by name.
    The callers' arrays are really written: there is a call after which
    the nodes seen through the old spec's slice are in another order. *)
Theorem clusterChanged_sorts_in_place :
  (∀ oldCluster newCluster clusterRef m,
     let m' := (clusterChanged E sorter oldCluster newCluster clusterRef m).2 in
     Sorted by_name (read m' (Nodes (Storage oldCluster)))
     ∧ Sorted by_name (read m' (Nodes (Storage newCluster)))
     ∧ read m' (Nodes (Storage oldCluster)) ≡ₚ read m (Nodes (Storage oldCluster))
     ∧ read m' (Nodes (Storage newCluster)) ≡ₚ read m (Nodes (Storage newCluster)))
  ∧ (∃ oldCluster newCluster clusterRef m,
       read (clusterChanged E sorter oldCluster newCluster clusterRef m).2
         (Nodes (Storage oldCluster))
       ≠ read m (Nodes (Storage oldCluster))).
Proof.
  split.
  - intros oldCluster newCluster clusterRef m m'. unfold m'.
    rewrite clusterChanged_heap.
    repeat split.
    + apply read_sort_sorted. rewrite read_sort_same.
      apply sortNodes_sorted.
    + rewrite read_sort_same. apply sortNodes_sorted.
    + by rewrite !read_sort_perm.
    + by rewrite !read_sort_perm.
  - exists (exampleSpec (SliceOf 0) "/var/lib/rook"),
      (exampleSpec NilSlice "/var/lib/rook"),
      (exampleCluster (exampleSpec NilSlice "/var/lib/rook") []),
      [[mkNode "node-b" "" None ""; mkNode "node-a" "" None ""]].
    rewrite clusterChanged_heap.
    change (sortNodes sorter [mkNode "node-b" "" None ""; mkNode "node-a" "" None ""]
            ≠ [mkNode "node-b" "" None ""; mkNode "node-a" "" None ""]).
    rewrite sortNodes_short by (simpl; lia). vm_compute. discriminate.
Qed.

(** The amended C9: two specs that are deeply equal but for their node
    slices, whose slices are both nil or both non-nil and show the same
    nodes in a different order, nodes of the same name being the same
    node, are reported as unchanged, however the library sorts. *)
Theorem reordered_nodes_are_no_change oldCluster newCluster clusterRef m :
  with_Nodes oldCluster NilSlice = with_Nodes newCluster NilSlice →
  (Nodes (Storage oldCluster) = NilSlice ↔ Nodes (Storage newCluster) = NilSlice) →
  read m (Nodes (Storage oldCluster)) ≡ₚ read m (Nodes (Storage newCluster)) →
  namesIdentify (read m (Nodes (Storage oldCluster))) →
  (clusterChanged E sorter oldCluster newCluster clusterRef m).1 = (false, "").
Proof.
  intros Hrest Hnil Hperm Hnd. unfold clusterChanged.
  assert (DeepEqual (sort_Sort sorter
                       (sort_Sort sorter m (Nodes (Storage oldCluster)))
                       (Nodes (Storage newCluster))) oldCluster newCluster
          = true) as ->; [|done].
  unfold DeepEqual. rewrite bool_decide_eq_true_2 by done.
  rewrite andb_true_l. unfold slice_DeepEqual.
  revert Hnil Hperm Hnd.
  destruct (Nodes (Storage oldCluster)) as [|a],
    (Nodes (Storage newCluster)) as [|b]; intros Hnil Hperm Hnd; try done.
  - destruct Hnil as [Hnil _]. by specialize (Hnil eq_refl).
  - destruct Hnil as [_ Hnil]. by specialize (Hnil eq_refl).
  - apply bool_decide_eq_true_2.
    rewrite (read_sort_same _ (SliceOf b)).
    destruct (decide (a = b)) as [->|Hne].
    + by rewrite read_sort_same.
    + rewrite (read_sort_other _ (SliceOf b) (SliceOf a)) by congruence.
      rewrite read_sort_same.
      rewrite (read_sort_other _ (SliceOf a) (SliceOf b)) by congruence.
      by apply sortNodes_reorder.
Qed.

End Differ.

(** On slices of at most 6 nodes [clusterChanged] is what it is with the
    insertion sort. *)
Lemma sort_Sort_short sorter m s :
  length (read m s) ≤ 6 → sort_Sort sorter m s = sort_Sort insertionSorter m s.
Proof.
  intros Hlen. destruct s as [|a]; [done|]. unfold sort_Sort.
  by rewrite sortNodes_short.
Qed.

Lemma clusterChanged_short E sorter oldCluster newCluster clusterRef m :
  length (read m (Nodes (Storage oldCluster))) ≤ 6 →
  length (read m (Nodes (Storage newCluster))) ≤ 6 →
  clusterChanged E sorter oldCluster newCluster clusterRef m
  = clusterChanged E insertionSorter oldCluster newCluster clusterRef m.
Proof.
  intros Hold Hnew. unfold clusterChanged.
  rewrite (sort_Sort_short sorter m) by done.
  rewrite (sort_Sort_short sorter (sort_Sort insertionSorter m _)); [done|].
  by rewrite read_sort_length.
Qed.

(** ** The statements at concrete inputs *)

(** *** The scheduler *)

(** Three requests during the first pass: two passes in all, both on the
    same spec, the mons are started twice, and the error of the last pass
    is returned. *)
Example three_requests_two_passes :
  ∃ st', createInstance calmEnv 3 threeRequests rookImage0 nautilus4 plainState
         = Some (None, [plainSpec; plainSpec], st')
         ∧ omap monsSpec (log st') = [plainSpec; plainSpec].
Proof. eexists. split; vm_compute; reflexivity. Qed.



Lemma exampleSystem_reachable : reachable exampleSystem.
Proof.
  pose (c := exampleCluster plainSpec []).
  assert (reachable (mkSystem c [])) as H0 by (by constructor).
  assert (reachable (mkSystem c [Entering; Entering])) as H1.
  { eapply reachable_step; [|apply (step_spawn c [Entering])].
    eapply reachable_step; [exact H0|apply (step_spawn c [])]. }
  assert (reachable (mkSystem (setOrchestrationNeeded c)
                       [AtCondition; AtCondition])) as H2.
  { eapply reachable_step;
      [|apply (step_request (setOrchestrationNeeded c)
                 [AtCondition; Entering] 1); reflexivity].
    eapply reachable_step;
      [exact H1|apply (step_request c [Entering; Entering] 0); reflexivity]. }
  eapply reachable_step;
    [|apply (step_claim (set_orchestrationRunning true c)
               [InPass; AtCondition] 1); reflexivity].
  eapply reachable_step;
    [exact H2
    |apply (step_claim (setOrchestrationNeeded c)
              [AtCondition; AtCondition] 0); reflexivity].
Qed.

Lemma claim_is_exclusive_witness :
  reachable exampleSystem
  ∧ length (claimants exampleSystem) = 1
  ∧ (checkSetOrchestrationStatus (shared exampleSystem)).1 = false.
Proof.
  pose proof (claim_is_exclusive (shared exampleSystem) exampleSystem
                exampleSystem_reachable) as (_ & _ & _ & _ & H).
  split; [exact exampleSystem_reachable|].
  split; [apply H|]; reflexivity.
Defined.

(** *** The upgrade gate *)

(** C3: the cluster runs 14.2.5 everywhere, its identity is established
    and the desired version, 14.2.4, is admitted:
    [diffImageSpecAndClusterRunningVersion] returns the downgrade error,
    and [validateCephVersion] returns nil, after the three calls that lead
    to the comparison and with the cluster object as it was. *)
Theorem downgrade_is_not_rejected :
  admitted (exampleEnv (inl runs5) true None) nautilus4 plainState
  ∧ established (exampleEnv (inl runs5) true None) plainState
  ∧ fetched (exampleEnv (inl runs5) true None) plainState runs5
  ∧ Overall runs5 = {[ v14_2_5 := 3 ]}
  ∧ ExtractCephVersion (exampleEnv (inl runs5) true None) v14_2_5 = inl nautilus5
  ∧ IsSuperior nautilus5 nautilus4 = true
  ∧ diffImageSpecAndClusterRunningVersion (exampleEnv (inl runs5) true None)
      nautilus4 runs5
    = (true, Some (ErrDowngrade nautilus4 nautilus5))
  ∧ validateCephVersion (exampleEnv (inl runs5) true None) nautilus4 plainState
    = (Return (),
       mkState (obj plainState) (mem plainState)
         [CallLoadClusterInfo "rook-ceph";
          CallWriteConnectionConfig (Some exampleInfo);
          CallGetAllCephDaemonVersions "rook-ceph"]).
Proof.
  assert (admitted (exampleEnv (inl runs5) true None) nautilus4 plainState)
    as Hadm by (split; [|left]; reflexivity).
  split; [exact Hadm|]. do 5 (split; [reflexivity|]).
  split; vm_compute; reflexivity.
Qed.

(** The cluster runs 14.2.4 and 14.2.5 is desired.  A healthy cluster:
    nil, and [isUpgrade], which was false, is true.  An unhealthy one: the
    refusal, and [isUpgrade] is still false. *)
Lemma upgrade_needs_healthy_cluster_witness :
  isUpgrade (obj plainState) = false
  ∧ IsInferior nautilus4 nautilus5 = true
  ∧ (admitted (exampleEnv (inl runs4) true None) nautilus5 plainState
     ∧ established (exampleEnv (inl runs4) true None) plainState
     ∧ fetched (exampleEnv (inl runs4) true None) plainState runs4
     ∧ IsCephHealthy (exampleEnv (inl runs4) true None) "rook-ceph" = true
     ∧ (validateCephVersion (exampleEnv (inl runs4) true None) nautilus5
          plainState).1 = Return ()
     ∧ isUpgrade (obj (validateCephVersion (exampleEnv (inl runs4) true None)
                         nautilus5 plainState).2) = true)
  ∧ (admitted (exampleEnv (inl runs4) false None) nautilus5 plainState
     ∧ established (exampleEnv (inl runs4) false None) plainState
     ∧ fetched (exampleEnv (inl runs4) false None) plainState runs4
     ∧ IsCephHealthy (exampleEnv (inl runs4) false None) "rook-ceph" = false
     ∧ (validateCephVersion (exampleEnv (inl runs4) false None) nautilus5
          plainState).1 = Fail (ErrNotHealthy "rook-ceph")
     ∧ isUpgrade (obj (validateCephVersion (exampleEnv (inl runs4) false None)
                         nautilus5 plainState).2) = false).
Proof.
  assert (∀ healthy,
            admitted (exampleEnv (inl runs4) healthy None) nautilus5 plainState)
    as Hadm by (intros healthy; split; [|left]; reflexivity).
  assert (∀ healthy,
            1 < size (Overall runs4)
            ∨ ∃ v n running,
                Overall runs4 = {[ v := n ]}
                ∧ ExtractCephVersion (exampleEnv (inl runs4) healthy None) v
                  = inl running
                ∧ IsInferior running nautilus5 = true) as Hneed.
  { intros healthy. right. exists v14_2_4, 3, nautilus4. repeat split. }
  split; [reflexivity|]. split; [reflexivity|]. split.
  - split; [exact (Hadm true)|]. do 3 (split; [reflexivity|]).
    pose proof (upgrade_needs_healthy_cluster
                  (exampleEnv (inl runs4) true None) nautilus5 plainState runs4
                  (Hadm true) eq_refl eq_refl (Hneed true))
      as (_ & _ & Hret & Hflag & _).
    split; [exact Hret|exact Hflag].
  - split; [exact (Hadm false)|]. do 3 (split; [reflexivity|]).
    pose proof (upgrade_needs_healthy_cluster
                  (exampleEnv (inl runs4) false None) nautilus5 plainState runs4
                  (Hadm false) eq_refl eq_refl (Hneed false))
      as (_ & _ & Hret & Hflag & _).
    split; [exact Hret|exact Hflag].
Defined.

(** The daemons of a cluster report no version at all: the claim C6 has
    [validateCephVersion] fail, and it returns nil. *)
Lemma no_versions_counterexample :
  established calmEnv plainState
  ∧ fetched calmEnv plainState (reports ∅)
  ∧ size (Overall (reports ∅)) = 0
  ∧ error_of (validateCephVersion calmEnv nautilus4 plainState).1 = None.
Proof. repeat split. Qed.

Lemma no_versions_is_not_fatal_witness :
  admitted calmEnv nautilus4 plainState
  ∧ established calmEnv plainState
  ∧ fetched calmEnv plainState (reports ∅)
  ∧ size (Overall (reports ∅)) = 0
  ∧ diffImageSpecAndClusterRunningVersion calmEnv nautilus4 (reports ∅)
    = (false, Some ErrNoOverall)
  ∧ validateCephVersion calmEnv nautilus4 plainState
    = (Return (),
       mkState (obj plainState) (mem plainState)
         (log plainState ++ gateCalls calmEnv plainState)).
Proof.
  assert (admitted calmEnv nautilus4 plainState) as Hadm
    by (split; [|left]; reflexivity).
  split; [exact Hadm|]. do 3 (split; [reflexivity|]).
  apply (no_versions_is_not_fatal calmEnv nautilus4 plainState (reports ∅) Hadm);
    reflexivity.
Defined.

Lemma identical_version_needs_no_upgrade_witness :
  Overall runs4 = {[ v14_2_4 := 3 ]}
  ∧ ExtractCephVersion (exampleEnv (inl runs4) true None) v14_2_4 = inl nautilus4
  ∧ IsIdentical nautilus4 nautilus4 = true
  ∧ diffImageSpecAndClusterRunningVersion (exampleEnv (inl runs4) true None)
      nautilus4 runs4 = (false, None).
Proof.
  do 3 (split; [reflexivity|]).
  apply (identical_version_needs_no_upgrade (exampleEnv (inl runs4) true None)
           nautilus4 plainState runs4 v14_2_4 3 nautilus4); reflexivity.
Defined.

(** *** The role sequencer *)

Lemma mons_failure_aborts_pass_witness :
  mons_Start (exampleEnv (inl runs4) true (Some (ErrExternal "no quorum")))
    (Info (obj plainState)) rookImage0 nautilus4 (Spec (obj plainState))
    (isUpgrade (obj plainState))
  = (None, Some (ErrExternal "no quorum"))
  ∧ (doOrchestration
       (exampleEnv (inl runs4) true (Some (ErrExternal "no quorum")))
       rookImage0 nautilus4 plainSpec plainState).1
    = Fail (ErrMonStart (ErrExternal "no quorum")).
Proof.
  split; [reflexivity|].
  apply (mons_failure_aborts_pass
           (exampleEnv (inl runs4) true (Some (ErrExternal "no quorum")))
           rookImage0 nautilus4 plainSpec plainState None
           (ErrExternal "no quorum")); reflexivity.
Defined.

(** C5: two passes are given the same copy of the spec, [plainSpec]; the
    cluster object of the first one still holds that spec, the one of the
    second holds a spec that was edited since.  The mons of the second
    pass are started with the edited spec, and its child controller is
    delivered the edited spec.  The same happens inside [createInstance]
    when the spec is edited right after the pass has taken its copy. *)
Theorem pass_reads_the_live_spec :
  plainSpec ≠ editedSpec
  ∧ (doOrchestration calmEnv rookImage0 nautilus4 plainSpec plainState).1
    = Return ()
  ∧ (doOrchestration calmEnv rookImage0 nautilus4 plainSpec editedState).1
    = Return ()
  ∧ omap monsSpec
      (log (doOrchestration calmEnv rookImage0 nautilus4 plainSpec plainState).2)
    = [plainSpec]
  ∧ omap monsSpec
      (log (doOrchestration calmEnv rookImage0 nautilus4 plainSpec editedState).2)
    = [editedSpec]
  ∧ omap deliveredSpec
      (log (doOrchestration calmEnv rookImage0 nautilus4 plainSpec plainState).2)
    = [plainSpec]
  ∧ omap deliveredSpec
      (log (doOrchestration calmEnv rookImage0 nautilus4 plainSpec editedState).2)
    = [editedSpec]
  ∧ ∃ st',
      createInstance calmEnv 2 editAfterCopy rookImage0 nautilus4 plainState
        = Some (None, [plainSpec], st')
      ∧ omap monsSpec (log st') = [editedSpec]
      ∧ omap deliveredSpec (log st') = [editedSpec].
Proof.
  split.
  { intros H. apply (f_equal DataDirHostPath) in H. discriminate H. }
  do 6 (split; [vm_compute; reflexivity|]).
  eexists. split; [vm_compute; reflexivity|].
  split; vm_compute; reflexivity.
Qed.

(** *** The spec differ *)

(** The claim C9 at two specs that differ in the order of their two nodes
    only: the nodes have the same name, the sort leaves each array in its
    order, and a change is reported; so it is with every sort, a slice of
    two nodes being sorted by insertion. *)
Lemma reordered_nodes_counterexample :
  with_Nodes twinsOld NilSlice = with_Nodes twinsNew NilSlice
  ∧ read twinsHeap (Nodes (Storage twinsOld))
    ≡ₚ read twinsHeap (Nodes (Storage twinsNew))
  ∧ (clusterChanged calmEnv insertionSorter twinsOld twinsNew
       (exampleCluster twinsNew []) twinsHeap).1.1 = true
  ∧ (∀ sorter,
       (clusterChanged calmEnv sorter twinsOld twinsNew
          (exampleCluster twinsNew []) twinsHeap).1.1 = true).
Proof.
  split; [reflexivity|]. split; [apply perm_swap|].
  split; [vm_compute; reflexivity|].
  intros sorter. rewrite clusterChanged_short by (vm_compute; lia).
  vm_compute. reflexivity.
Qed.

Lemma reordered_nodes_are_no_change_witness :
  with_Nodes twinsOld NilSlice = with_Nodes twinsNew NilSlice
  ∧ (Nodes (Storage twinsOld) = NilSlice ↔ Nodes (Storage twinsNew) = NilSlice)
  ∧ read trioHeap (Nodes (Storage twinsOld))
    ≡ₚ read trioHeap (Nodes (Storage twinsNew))
  ∧ namesIdentify (read trioHeap (Nodes (Storage twinsOld)))
  ∧ (clusterChanged calmEnv insertionSorter twinsOld twinsNew
       (exampleCluster twinsNew []) trioHeap).1 = (false, "").
Proof.
  assert (read trioHeap (Nodes (Storage twinsOld))
          ≡ₚ read trioHeap (Nodes (Storage twinsNew))) as Hperm.
  { change ([nodeC; nodeA; nodeB] ≡ₚ [nodeB; nodeC; nodeA]).
    change ([nodeC; nodeA] ++ [nodeB] ≡ₚ [nodeB] ++ [nodeC; nodeA]).
    apply Permutation_app_comm. }
  assert (namesIdentify (read trioHeap (Nodes (Storage twinsOld)))) as Hid.
  { apply NoDup_names_identify.
    change (NoDup ["node-c"; "node-a"; "node-b"]). compute_done. }
  assert (Nodes (Storage twinsOld) = NilSlice ↔ Nodes (Storage twinsNew) = NilSlice)
    as Hnil by (split; discriminate).
  split; [reflexivity|]. split; [exact Hnil|]. split; [exact Hperm|].
  split; [exact Hid|].
  apply (reordered_nodes_are_no_change calmEnv insertionSorter twinsOld twinsNew
           (exampleCluster twinsNew []) trioHeap); [reflexivity|done..].
Defined.

(** The arrays of the three nodes before and after [clusterChanged]. *)
Example clusterChanged_sorts_trio :
  clusterChanged calmEnv insertionSorter twinsOld twinsNew
    (exampleCluster twinsNew []) trioHeap
  = (false, "", [[nodeA; nodeB; nodeC]; [nodeA; nodeB; nodeC]]).
Proof. vm_compute. reflexivity. Qed.

(** * Further properties of cluster.go *)

(** ** [validateCephVersion] and [diffImageSpecAndClusterRunningVersion] *)

Section GateMore.

Context (E : Env).

(** X1: a desired version that is below the minimum, or unsupported while
    the spec does not allow unsupported versions, is refused before any
    collaborator is called: the state, log included, is untouched, and the
    minimum is tested first. *)
Theorem refused_version_makes_no_call version st :
  ¬ admitted E version st →
  validateCephVersion E version st
  = (Fail (if IsAtLeast version (Minimum E)
           then ErrAllowUnsupported version
           else ErrBelowMinimum (Minimum E)), st).
Proof.
  intros Hno. unfold validateCephVersion.
  destruct (IsAtLeast version (Minimum E)) eqn:Hmin; simpl; [|done].
  run_op.
  destruct (Supported E version) eqn:Hsup; simpl.
  { exfalso. apply Hno. split; [done|by left]. }
  destruct (AllowUnsupported (CephVersionOf (Spec (obj st)))) eqn:Hallow;
    simpl; [|done].
  exfalso. apply Hno. split; [done|by right].
Qed.

(** X2: on a cluster whose identity is not established, an admitted
    version is accepted without looking at the live cluster: the identity
    is loaded (and the connection config written when loading gave no
    error), the running versions are not fetched, the health is not
    asked for, and the cluster object is as it was. *)
Theorem new_cluster_is_not_probed version st :
  admitted E version st → ¬ established E st →
  validateCephVersion E version st
  = (Return (),
     mkState (obj st) (mem st)
       (log st
        ++ CallLoadClusterInfo (Namespace (obj st))
           :: match (LoadClusterInfo E (Namespace (obj st))).2 with
              | None => [CallWriteConnectionConfig
                           (LoadClusterInfo E (Namespace (obj st))).1]
              | Some _ => []
              end)).
Proof.
  intros [Hmin Hsup] Hest. unfold established in Hest.
  apply not_true_is_false in Hest.
  unfold validateCephVersion. rewrite Hmin. simpl. run_op.
  assert (negb (Supported E version)
          && negb (AllowUnsupported (CephVersionOf (Spec (obj st)))) = false)
    as -> by (destruct Hsup as [-> | ->]; simpl; by rewrite ?andb_false_r).
  destruct (LoadClusterInfo E (Namespace (obj st))) as [info err].
  simpl in *. destruct err; simpl; rewrite Hest; simpl;
    by rewrite <- ?app_assoc.
Qed.

(** X3: when the running versions cannot be fetched, an admitted version
    is accepted on an established cluster as well: nil is returned after
    the calls that lead to the comparison, with no health check and the
    cluster object, [isUpgrade] included, as it was. *)
Theorem fetch_failure_is_not_fatal version st err :
  admitted E version st → established E st →
  GetAllCephDaemonVersions E (Namespace (obj st)) = inr err →
  validateCephVersion E version st
  = (Return (), mkState (obj st) (mem st) (log st ++ gateCalls E st)).
Proof.
  intros [Hmin Hsup] Hest Hfetch. unfold established, gateCalls in *.
  unfold validateCephVersion. rewrite Hmin. simpl. run_op.
  assert (negb (Supported E version)
          && negb (AllowUnsupported (CephVersionOf (Spec (obj st)))) = false)
    as -> by (destruct Hsup as [-> | ->]; simpl; by rewrite ?andb_false_r).
  destruct (LoadClusterInfo E (Namespace (obj st))) as [info e].
  simpl in *. destruct e; simpl; rewrite Hest; simpl; rewrite Hfetch;
    simpl; by rewrite <- ?app_assoc.
Qed.

(** X4: when the one running version cannot be parsed, the comparison
    returns the parser's error as it is, with [false], and
    [validateCephVersion] returns nil without a health check. *)
Theorem unparsed_version_is_not_fatal version st rvs v n err :
  admitted E version st → established E st → fetched E st rvs →
  Overall rvs = {[ v := n ]} →
  ExtractCephVersion E v = inr err →
  diffImageSpecAndClusterRunningVersion E version rvs = (false, Some err)
  ∧ validateCephVersion E version st
    = (Return (), mkState (obj st) (mem st) (log st ++ gateCalls E st)).
Proof.
  intros Hadm Hest Hfetch Hone Hparse.
  assert (diffImageSpecAndClusterRunningVersion E version rvs
          = (false, Some err)) as Hdiff.
  { rewrite (diff_one_version E _ _ _ _ Hone). simpl. by rewrite Hparse. }
  split; [done|].
  rewrite (validateCephVersion_at_gate E version st rvs Hadm Hest Hfetch).
  by rewrite Hdiff.
Qed.

(** X5: whatever the environment answers, [validateCephVersion] leaves the
    backing store alone, changes nothing of the cluster object but
    [isUpgrade], which it can only set and only when it returns nil, fails
    with one of three errors only, and makes at most four calls. *)
Theorem validateCephVersion_frame version st :
  let r := (validateCephVersion E version st).1 in
  let st' := (validateCephVersion E version st).2 in
  mem st' = mem st
  ∧ (obj st' = obj st
     ∨ (obj st' = set_isUpgrade true (obj st) ∧ r = Return ()))
  ∧ (r = Return ()
     ∨ r = Fail (ErrBelowMinimum (Minimum E))
     ∨ r = Fail (ErrAllowUnsupported version)
     ∨ r = Fail (ErrNotHealthy (Namespace (obj st))))
  ∧ ∃ calls, log st' = log st ++ calls ∧ length calls ≤ 4.
Proof.
  unfold validateCephVersion.
  destruct (IsAtLeast version (Minimum E)); simpl;
    [|(split; [done|]); (split; [auto|]); (split; [auto|]);
      exists []; split; [by rewrite app_nil_r|simpl; lia]].
  run_op.
  destruct (negb (Supported E version)
            && negb (AllowUnsupported (CephVersionOf (Spec (obj st)))));
    simpl;
    [(split; [done|]); (split; [auto|]); (split; [auto|]);
     exists []; split; [by rewrite app_nil_r|simpl; lia]|].
  destruct (LoadClusterInfo E (Namespace (obj st))) as [info [e|]]; simpl;
    destruct (IsInitialized info); simpl;
    try destruct (GetAllCephDaemonVersions E (Namespace (obj st)))
      as [rvs|e0]; simpl;
    try destruct (diffImageSpecAndClusterRunningVersion E version rvs)
      as [[] [e'|]]; simpl;
    try destruct (IsCephHealthy E (Namespace (obj st))); simpl;
    rewrite <- ?app_assoc;
    (split; [done|]); (split; [auto|]); (split; [auto 6|]);
    (eexists; split; [reflexivity|simpl; lia]).
Qed.

(** X6: the converse of the upgrade rule.  When [validateCephVersion]
    changes the cluster object or refuses for bad health, the version was
    admitted, the identity established, the running versions fetched, and
    their comparison with the desired version said "upgrade" without an
    error; and then nil is returned exactly when the cluster is healthy. *)
Theorem upgrade_decision_has_a_cause version st :
  obj (validateCephVersion E version st).2 ≠ obj st
  ∨ (validateCephVersion E version st).1
    = Fail (ErrNotHealthy (Namespace (obj st))) →
  admitted E version st
  ∧ established E st
  ∧ (∃ rvs, fetched E st rvs
            ∧ diffImageSpecAndClusterRunningVersion E version rvs = (true, None))
  ∧ (IsCephHealthy E (Namespace (obj st)) = true
     ↔ (validateCephVersion E version st).1 = Return ()).
Proof.
  unfold admitted, established, fetched, validateCephVersion.
  destruct (IsAtLeast version (Minimum E)); simpl;
    [|intros [?|?]; done].
  run_op.
  destruct (Supported E version); simpl;
    [|destruct (AllowUnsupported (CephVersionOf (Spec (obj st)))); simpl;
      [|intros [?|?]; done]].
  all: destruct (LoadClusterInfo E (Namespace (obj st))) as [info [e|]]; simpl;
    destruct (IsInitialized info); simpl; try (intros [?|?]; done);
    destruct (GetAllCephDaemonVersions E (Namespace (obj st)))
      as [rvs|e0]; simpl; try (intros [?|?]; done);
    destruct (diffImageSpecAndClusterRunningVersion E version rvs)
      as [[] [e'|]] eqn:Hdiff; simpl; try (intros [?|?]; done);
    destruct (IsCephHealthy E (Namespace (obj st))); simpl; intros _;
    (split; [auto|]); (split; [done|]); (split; [by exists rvs|]);
    split; done.
Qed.

Lemma map_size_1_singleton (m : gmap string nat) :
  size m = 1 → ∃ v n, m = {[ v := n ]}.
Proof.
  intros Hsize. unfold size, map_size in Hsize.
  rewrite <- (list_to_map_to_list m).
  rewrite map_fold_foldr in Hsize.
  assert (length (map_to_list m) = 1) as Hlen.
  { rewrite <- Hsize. clear Hsize.
    induction (map_to_list m) as [|[??] ? IH]; simpl; [done|].
    by rewrite IH. }
  destruct (map_to_list m) as [|[v n] [|]]; simplify_eq /=.
  exists v, n. by rewrite insert_empty.
Qed.

(** X7: when the comparison returns an error.  It does so exactly when no
    version is reported at all, or one version is reported and it cannot
    be parsed or is strictly above the desired one; with two versions or
    more it never does, whatever they are. *)
Theorem comparison_errors version rvs :
  (diffImageSpecAndClusterRunningVersion E version rvs).2 ≠ None
  ↔ size (Overall rvs) = 0
    ∨ ∃ v n, Overall rvs = {[ v := n ]}
             ∧ match ExtractCephVersion E v with
               | inr _ => True
               | inl running => IsSuperior running version = true
               end.
Proof.
  destruct (decide (size (Overall rvs) = 0)) as [Hzero|Hpos].
  { rewrite (diff_no_versions E _ _ Hzero). simpl. naive_solver. }
  destruct (decide (1 < size (Overall rvs))) as [Hmany|Hone].
  { rewrite (diff_several_versions E _ _ Hmany). simpl.
    split; [done|]. intros [?|(v & n & Heq & _)]; [done|].
    rewrite Heq, map_size_singleton in Hmany. lia. }
  destruct (map_size_1_singleton (Overall rvs)) as (v & n & Heq); [lia|].
  rewrite (diff_one_version E _ _ _ _ Heq). simpl.
  split.
  - intros Herr. right. exists v, n. split; [done|].
    destruct (ExtractCephVersion E v) as [running|e]; [|done].
    destruct (version_trichotomy version running) as [H|[H|H]];
      destruct H as (Hs & Hi & Hid); rewrite ?Hs, ?Hi in Herr.
    + destruct (IsSuperior_not_identical _ _ Hs) as [_ Hid'].
      by rewrite Hid' in Herr.
    + by rewrite IsSuperior_IsInferior.
    + assert (IsIdentical running version = true) as Hid'.
      { unfold IsIdentical in *. apply bool_decide_eq_true.
        apply bool_decide_eq_true in Hid.
        destruct Hid as (? & ? & ? & ?). auto. }
      by rewrite Hid' in Herr.
  - intros [?|(v' & n' & Heq' & Hcase)]; [done|].
    rewrite Heq in Heq'.
    assert (v' = v) as ->.
    { apply (f_equal dom) in Heq'. rewrite !dom_singleton_L in Heq'.
      set_solver. }
    destruct (ExtractCephVersion E v) as [running|e]; [|done].
    destruct (IsSuperior_not_identical _ _ Hcase) as [-> _].
    rewrite (IsSuperior_asym _ _ Hcase).
    by rewrite <- IsSuperior_IsInferior, Hcase.
Qed.

End GateMore.

(** ** The scheduler and [createInstance] *)

Section SchedulerMore.

Context (E : Env).

(** X8: a [createInstance] that finds a pass running runs no pass and
    makes no call: it returns nil at once and leaves its request behind,
    for the goroutine that is inside the pass. *)
Theorem createInstance_while_running fuel sched rookImage cephVersion st :
  orchestrationRunning (obj st) = true → 0 < fuel →
  createInstance E fuel sched rookImage cephVersion st
  = Some (None, [],
          mkState (setOrchestrationNeeded (obj st)) (mem st) (log st)).
Proof.
  intros Hrun Hfuel. destruct fuel as [|fuel]; [lia|].
  unfold createInstance. simpl.
  by rewrite checkSetOrchestrationStatus_declines by (by right).
Qed.

Lemma createInstance_single_pass fuel rookImage cephVersion st :
  orchestrationRunning (obj st) = false → 2 ≤ fuel →
  let spec := (DeepCopy (mem st) (Spec (obj st))).1 in
  let pass := doOrchestration E rookImage cephVersion spec (passState st) in
  createInstance E fuel [] rookImage cephVersion st
  = Some (error_of pass.1, [spec],
          mkState (unsetOrchestrationStatus (obj pass.2))
            (mem pass.2) (log pass.2))
  ∧ orchestrationNeeded (obj pass.2) = false
  ∧ orchestrationRunning (obj pass.2) = true.
Proof.
  intros Hrun Hfuel spec pass.
  destruct (doOrchestration_frame E rookImage cephVersion spec (passState st))
    as (Hn & Hr & _ & _). fold pass in Hn, Hr. simpl in Hn, Hr.
  split; [|done].
  destruct fuel as [|[|fuel]]; [lia..|].
  unfold createInstance. simpl.
  rewrite checkSetOrchestrationStatus_claims by done. simpl.
  unfold pass, spec, passState, interfere_all in *. simpl in *.
  destruct (DeepCopy (mem st) (Spec (obj st))) as [sp m]. simpl in *.
  destruct (doOrchestration E rookImage cephVersion sp _) as [r st2].
  simpl in *.
  rewrite checkSetOrchestrationStatus_declines; [done|].
  by left.
Qed.

(** X9: when no other goroutine interferes, [createInstance] is one pass
    of [doOrchestration] on the copy of the spec, started with the request
    claimed, followed by the release: the error of the pass is returned,
    and the flags end up both false. *)
Theorem createInstance_alone fuel rookImage cephVersion st :
  orchestrationRunning (obj st) = false → 2 ≤ fuel →
  let spec := (DeepCopy (mem st) (Spec (obj st))).1 in
  let pass := doOrchestration E rookImage cephVersion spec (passState st) in
  createInstance E fuel [] rookImage cephVersion st
  = Some (error_of pass.1, [spec],
          mkState (unsetOrchestrationStatus (obj pass.2))
            (mem pass.2) (log pass.2))
  ∧ orchestrationNeeded (obj pass.2) = false
  ∧ orchestrationRunning (obj pass.2) = true.
Proof. apply createInstance_single_pass. Qed.

End SchedulerMore.

(** X10: how the three flag operations compose.  A claim cannot be
    repeated without a release in between; a release alone does not make
    the next claim succeed, since the claim has used up the request; and a
    request made while the pass runs is kept by the release, so that the
    next claim succeeds. *)
Theorem flag_operations_compose (c : cluster) :
  (checkSetOrchestrationStatus (checkSetOrchestrationStatus c).2).1 = false
  ∧ ((checkSetOrchestrationStatus c).1 = true →
     (checkSetOrchestrationStatus
        (unsetOrchestrationStatus (checkSetOrchestrationStatus c).2)).1 = false)
  ∧ (checkSetOrchestrationStatus
       (unsetOrchestrationStatus
          (setOrchestrationNeeded (checkSetOrchestrationStatus c).2))).1 = true
  ∧ setOrchestrationNeeded (setOrchestrationNeeded c) = setOrchestrationNeeded c.
Proof.
  unfold checkSetOrchestrationStatus.
  destruct (orchestrationNeeded c) eqn:Hn, (orchestrationRunning c) eqn:Hr;
    simpl; rewrite ?Hn, ?Hr; simpl; done.
Qed.

(** *** No request is lost *)

Lemma started_reachable s : started s → reachable s.
Proof.
  induction 1 as [c Hn Hr | s s' _ IH Hstep].
  - by constructor.
  - by eapply reachable_step.
Qed.

Lemma claimant_exists (gs : list pc) :
  0 < length (filter (λ p, p = InPass) gs) → ∃ j, gs !! j = Some InPass.
Proof.
  induction gs as [|g gs IH]; simpl; [lia|].
  rewrite filter_cons. case_decide as Hg; simpl.
  - intros _. exists 0. by rewrite Hg.
  - intros Hlen. destruct (IH Hlen) as [j Hj]. by exists (S j).
Qed.

Lemma needed_has_a_taker s :
  started s →
  orchestrationNeeded (shared s) = true →
  ∃ i, goroutines s !! i = Some AtCondition ∨ goroutines s !! i = Some InPass.
Proof.
  induction 1 as [c Hn Hr | s s' Hs IH Hstep]; simpl.
  - intros Hneed. congruence.
  - pose proof (running_counts_claimants s (started_reachable s Hs)) as Hcount.
    unfold claimants in Hcount.
    destruct Hstep as [c gs | c gs i Hi | c gs i Hi | c gs i Hi];
      simpl in *.
    + intros Hneed. destruct (IH Hneed) as [j Hj].
      exists j. destruct Hj as [Hj|Hj]; [left|right];
        by apply lookup_app_l_Some.
    + intros _. exists i. left.
      apply list_lookup_insert_eq. by eapply lookup_lt_Some.
    + unfold checkSetOrchestrationStatus.
      destruct (orchestrationNeeded c) eqn:Hn,
        (orchestrationRunning c) eqn:Hr; simpl; intros Hneed;
        try congruence.
      destruct (claimant_exists gs) as [j Hj]; [lia|].
      exists j. right.
      rewrite list_lookup_insert_ne; [done|]. congruence.
    + intros _. exists i. left.
      apply list_lookup_insert_eq. by eapply lookup_lt_Some.
Qed.

(** X11: from a new cluster object on, whenever an orchestration is
    needed some goroutine is still in the loop of [createInstance], at its
    condition or inside a pass: the request will be looked at. *)
Theorem request_has_a_taker s :
  started s →
  orchestrationNeeded (shared s) = true →
  ∃ i, goroutines s !! i = Some AtCondition ∨ goroutines s !! i = Some InPass.
Proof. apply needed_has_a_taker. Qed.

(** X12: from a new cluster object on, once every goroutine has left
    [createInstance], no orchestration is needed and none is running: the
    loops have drained all the requests. *)
Theorem all_returned_means_drained s :
  started s →
  Forall (λ p, p = Returned) (goroutines s) →
  orchestrationNeeded (shared s) = false
  ∧ orchestrationRunning (shared s) = false.
Proof.
  intros Hs Hall. split.
  - destruct (orchestrationNeeded (shared s)) eqn:Hn; [|done].
    destruct (needed_has_a_taker s Hs Hn) as [i [Hi|Hi]];
      apply list_elem_of_lookup_2 in Hi;
      rewrite Forall_forall in Hall; by specialize (Hall _ Hi).
  - pose proof (running_counts_claimants s (started_reachable s Hs)) as Hcount.
    destruct (orchestrationRunning (shared s)); [|done].
    destruct (claimant_exists (goroutines s)) as [j Hj];
      [unfold claimants in Hcount; lia|].
    apply list_elem_of_lookup_2 in Hj.
    rewrite Forall_forall in Hall. by specialize (Hall _ Hj).
Qed.

(** ** [doOrchestration] *)

Section SequencerMore.

Context (E : Env).

(** X13: a pass in which every step succeeds.  When the configmap is
    there, the mons return an established identity and the three later
    roles start, the pass returns nil, has recorded the identity and set
    [initCompleted], and has made its calls in this order: configmap,
    mons, mgr, osd, rbd mirror, then one notification per child
    controller, in the order of [childControllers]. *)
Theorem successful_pass rookImage cephVersion spec st info :
  configMapReady E st →
  mons_Start E (Info (obj st)) rookImage cephVersion (Spec (obj st))
    (isUpgrade (obj st)) = (info, None) →
  IsInitialized info = true →
  mgr_Start E (mgrConfig E rookImage spec (set_Info info (obj st))) = None →
  osd_Start E (osdConfig E rookImage spec (set_Info info (obj st))) = None →
  rbd_Start E (rbdConfig E rookImage spec (set_Info info (obj st))) = None →
  doOrchestration E rookImage cephVersion spec st
  = (Return (),
     mkState (set_initCompleted true (set_Info info (obj st))) (mem st)
       (log st
        ++ [CallCreateConfigMap (Namespace (obj st)) (ownerRef (obj st));
            CallMonsStart (Info (obj st)) rookImage cephVersion
              (Spec (obj st)) (isUpgrade (obj st));
            CallMgrStart (mgrConfig E rookImage spec (set_Info info (obj st)));
            CallOsdStart (osdConfig E rookImage spec (set_Info info (obj st)));
            CallRbdMirrorStart
              (rbdConfig E rookImage spec (set_Info info (obj st)))]
        ++ map (λ child, CallParentClusterChanged child (Spec (obj st)) info
                           (isUpgrade (obj st)))
             (childControllers (obj st)))).
Proof.
  unfold configMapReady, mgrConfig, osdConfig, rbdConfig. simpl.
  intros Hcm Hmons Hinit Hmgr Hosd Hrbd.
  unfold doOrchestration. run_op.
  destruct (CreateConfigMap E (Namespace (obj st)) (ownerRef (obj st)))
    as [e0|]; simpl; rewrite ?Hcm; simpl;
    rewrite Hmons; simpl; rewrite Hinit; simpl;
    rewrite Hmgr; simpl; rewrite Hosd; simpl; rewrite Hrbd; simpl;
    rewrite notifyChildren_calls; simpl;
    by rewrite <- !app_assoc.
Qed.

Lemma doOrchestration_initialized rookImage cephVersion spec st :
  let r := (doOrchestration E rookImage cephVersion spec st).1 in
  let st' := (doOrchestration E rookImage cephVersion spec st).2 in
  initialized (obj st') = initialized (obj st) || succeeded r
  ∧ (succeeded r = true → IsInitialized (Info (obj st')) = true).
Proof.
  unfold initialized, doOrchestration. run_op.
  repeat (case_answer; try by rewrite ?orb_false_r).
  all: rewrite notifyChildren_calls; simpl; rewrite orb_true_r.
  all: split; [done|]; intros _.
  all: by apply negb_false_iff.
Qed.

(** X14: [initialized] turns true exactly through a successful pass: after
    a pass it is what it was before, or true if the pass returned nil; and
    after a pass that returned nil the identity of the cluster is
    established. *)
Theorem initialized_by_success rookImage cephVersion spec st :
  let r := (doOrchestration E rookImage cephVersion spec st).1 in
  let st' := (doOrchestration E rookImage cephVersion spec st).2 in
  initialized (obj st') = initialized (obj st) || succeeded r
  ∧ (succeeded r = true → IsInitialized (Info (obj st')) = true).
Proof. apply doOrchestration_initialized. Qed.


(** X16: mons that start without establishing the identity make the pass
    fail with the identity error, after the configmap and the mons calls
    only; what the mons returned is recorded all the same. *)
Theorem identity_must_be_established rookImage cephVersion spec st info :
  configMapReady E st →
  mons_Start E (Info (obj st)) rookImage cephVersion (Spec (obj st))
    (isUpgrade (obj st)) = (info, None) →
  IsInitialized info = false →
  doOrchestration E rookImage cephVersion spec st
  = (Fail ErrIdentity,
     mkState (set_Info info (obj st)) (mem st)
       (log st
        ++ [CallCreateConfigMap (Namespace (obj st)) (ownerRef (obj st));
            CallMonsStart (Info (obj st)) rookImage cephVersion
              (Spec (obj st)) (isUpgrade (obj st))])).
Proof.
  unfold configMapReady. intros Hcm Hmons Hinit.
  unfold doOrchestration. run_op.
  destruct (CreateConfigMap E (Namespace (obj st)) (ownerRef (obj st)))
    as [e0|]; simpl; rewrite ?Hcm; simpl;
    rewrite Hmons; simpl; rewrite Hinit; simpl;
    by rewrite <- !app_assoc.
Qed.

(** X17: an error of the configmap creation other than "already exists"
    ends the pass before the mons are started: the creation is the only
    call made, and the cluster object is untouched. *)
Theorem configmap_failure_ends_pass rookImage cephVersion spec st e :
  CreateConfigMap E (Namespace (obj st)) (ownerRef (obj st)) = Some e →
  IsAlreadyExists e = false →
  doOrchestration E rookImage cephVersion spec st
  = (Fail (ErrConfigMap (Namespace (obj st)) e),
     mkState (obj st) (mem st)
       (log st
        ++ [CallCreateConfigMap (Namespace (obj st)) (ownerRef (obj st))])).
Proof.
  intros Hcm Hexists. unfold doOrchestration. run_op.
  by rewrite Hcm, Hexists.
Qed.

Lemma phase_notifications children spec info upgrade :
  phase <$> map (λ child, CallParentClusterChanged child spec info upgrade)
              children
  = replicate (length children) 8.
Proof. induction children; simpl; by f_equal. Qed.

(** X18: the steps of a pass are taken in order and none is skipped.
    Whatever the collaborators answer, the calls of a pass are a beginning
    of the sequence configmap, mons, mgr, osd, rbd mirror, notifications:
    no role is started before the one ahead of it, and no child is
    notified before the rbd mirrors were started. *)
Theorem pass_keeps_the_order rookImage cephVersion spec st :
  ∃ calls,
    log (doOrchestration E rookImage cephVersion spec st).2 = log st ++ calls
    ∧ phase <$> calls
      `prefix_of` [1; 2; 4; 5; 6]
                  ++ replicate (length (childControllers (obj st))) 8.
Proof.
  unfold doOrchestration. run_op.
  repeat (case_answer;
          try (rewrite <- ?app_assoc; eexists; split; [reflexivity|];
               simpl; repeat apply prefix_cons; by apply prefix_nil)).
  all: rewrite notifyChildren_calls; simpl; rewrite <- ?app_assoc.
  all: eexists; split; [reflexivity|]; simpl.
  all: by rewrite phase_notifications.
Qed.

End SequencerMore.

(** ** [clusterChanged] *)

Lemma insert_last x l :
  Forall (λ y, by_name y x) l → insert x l = l ++ [x].
Proof.
  induction 1 as [|y l Hy _ IH]; simpl; [done|].
  unfold by_name in Hy. by rewrite Hy, IH.
Qed.

Lemma fold_insert_sorted_id l : ∀ acc,
  StronglySorted by_name (acc ++ l) →
  fold_left (λ sorted x, insert x sorted) l acc = acc ++ l.
Proof.
  induction l as [|x l IH]; intros acc Hsorted; simpl.
  - by rewrite app_nil_r.
  - rewrite insert_last.
    + rewrite IH; rewrite <- app_assoc; done.
    + apply Forall_forall. intros y Hy.
      apply (StronglySorted_app_1_elem_of by_name acc (x :: l)); [done..|].
      by left.
Qed.

(** Sorting sorted nodes changes nothing. *)
Lemma insertionSort_sorted_id l : Sorted by_name l → insertionSort l = l.
Proof.
  intros Hsorted. unfold insertionSort.
  rewrite fold_insert_sorted_id; [done|]. simpl.
  apply Sorted.Sorted_StronglySorted; [|done].
  intros a b c. apply by_name_trans.
Qed.

Lemma DeepEqual_sym m a b : DeepEqual m a b = DeepEqual m b a.
Proof.
  unfold DeepEqual, slice_DeepEqual. f_equal.
  - apply bool_decide_ext. naive_solver.
  - destruct (Nodes (Storage a)), (Nodes (Storage b)); try done.
    apply bool_decide_ext. naive_solver.
Qed.

Lemma orderIsFixed_perm l1 l2 : l1 ≡ₚ l2 → orderIsFixed l1 → orderIsFixed l2.
Proof.
  intros Hperm [Hid | Hlen].
  - left. by apply (namesIdentify_perm l1).
  - right. by rewrite <- (Permutation_length Hperm).
Qed.

Section DifferMore.

Context (E : Env) (sorter : Sorter).

(** Sorting again changes nothing, when the order of the sorted nodes is
    fixed. *)
Lemma sortNodes_idemp l :
  orderIsFixed l →
  sortNodes sorter (sortNodes sorter l) = sortNodes sorter l.
Proof.
  intros [Hid | Hlen].
  - apply sorted_by_name_unique.
    + apply (namesIdentify_perm l); [|done].
      by rewrite !sortNodes_perm.
    + by rewrite sortNodes_perm.
    + apply sortNodes_sorted.
    + apply sortNodes_sorted.
  - rewrite (sortNodes_short sorter l) by done.
    rewrite sortNodes_short
      by (by rewrite (Permutation_length (insertionSort_perm l))).
    apply insertionSort_sorted_id, insertionSort_sorted.
Qed.

Lemma sort_Sort_idemp m s :
  orderIsFixed (read m s) →
  sort_Sort sorter (sort_Sort sorter m s) s = sort_Sort sorter m s.
Proof.
  intros Hfixed. destruct s as [|a]; [done|].
  change (sort_Sort sorter (sort_Sort sorter m (SliceOf a)) (SliceOf a))
    with (<[a := sortNodes sorter
                    (read (sort_Sort sorter m (SliceOf a)) (SliceOf a))]>
            (<[a := sortNodes sorter (read m (SliceOf a))]> m)).
  rewrite read_sort_same, list_insert_insert_eq.
  by rewrite sortNodes_idemp.
Qed.

Lemma sort_Sort_comm m s1 s2 :
  sort_Sort sorter (sort_Sort sorter m s1) s2
  = sort_Sort sorter (sort_Sort sorter m s2) s1.
Proof.
  destruct (decide (s1 = s2)) as [->|Hne]; [done|].
  destruct s1 as [|a], s2 as [|b]; try done.
  change (<[b := sortNodes sorter
                   (read (sort_Sort sorter m (SliceOf a)) (SliceOf b))]>
            (<[a := sortNodes sorter (read m (SliceOf a))]> m)
          = <[a := sortNodes sorter
                     (read (sort_Sort sorter m (SliceOf b)) (SliceOf a))]>
              (<[b := sortNodes sorter (read m (SliceOf b))]> m)).
  rewrite !read_sort_other by congruence.
  apply list_insert_insert_ne. congruence.
Qed.

(** X19: [clusterChanged] is idempotent where the order of the sorted
    nodes is fixed (in each of the two slices a name identifies a node, or
    there are at most 6 nodes): called again on the same two specs, with
    the backing store the first call left, it returns the same answer and
    the same diff and leaves the store as it found it. *)
Theorem clusterChanged_again oldCluster newCluster clusterRef clusterRef' m :
  orderIsFixed (read m (Nodes (Storage oldCluster))) →
  orderIsFixed (read m (Nodes (Storage newCluster))) →
  clusterChanged E sorter oldCluster newCluster clusterRef'
    (clusterChanged E sorter oldCluster newCluster clusterRef m).2
  = clusterChanged E sorter oldCluster newCluster clusterRef m.
Proof.
  intros Hold Hnew.
  rewrite clusterChanged_heap. unfold clusterChanged.
  set (so := Nodes (Storage oldCluster)) in *.
  set (sn := Nodes (Storage newCluster)) in *.
  assert (sort_Sort sorter
            (sort_Sort sorter (sort_Sort sorter (sort_Sort sorter m so) sn) so)
            sn
          = sort_Sort sorter (sort_Sort sorter m so) sn) as ->; [|done].
  rewrite (sort_Sort_comm (sort_Sort sorter m so) sn so).
  rewrite (sort_Sort_idemp m so) by done.
  apply sort_Sort_idemp.
  apply (orderIsFixed_perm (read m sn)); [|done].
  by rewrite read_sort_perm.
Qed.

(** X20: [clusterChanged] does not depend on which spec is called the old
    one: with the two specs exchanged it reports the same and leaves the
    same backing store. *)
Theorem clusterChanged_exchanged oldCluster newCluster clusterRef m :
  (clusterChanged E sorter oldCluster newCluster clusterRef m).1.1
  = (clusterChanged E sorter newCluster oldCluster clusterRef m).1.1
  ∧ (clusterChanged E sorter oldCluster newCluster clusterRef m).2
    = (clusterChanged E sorter newCluster oldCluster clusterRef m).2.
Proof.
  rewrite !clusterChanged_heap. split; [|apply sort_Sort_comm].
  unfold clusterChanged.
  rewrite (sort_Sort_comm m (Nodes (Storage newCluster))).
  rewrite (DeepEqual_sym _ newCluster oldCluster).
  by destruct (DeepEqual _ oldCluster newCluster).
Qed.

(** X21: what "unchanged" means.  When [clusterChanged] reports no change,
    the two specs agree on everything but their node slices, the slices
    are both nil or both non-nil and show the same nodes up to their
    order, and the diff is empty: a difference in any other field, or in
    the nodes themselves, is always reported. *)
Theorem unchanged_means_same oldCluster newCluster clusterRef m :
  (clusterChanged E sorter oldCluster newCluster clusterRef m).1.1 = false →
  with_Nodes oldCluster NilSlice = with_Nodes newCluster NilSlice
  ∧ (Nodes (Storage oldCluster) = NilSlice
     ↔ Nodes (Storage newCluster) = NilSlice)
  ∧ read m (Nodes (Storage oldCluster)) ≡ₚ read m (Nodes (Storage newCluster))
  ∧ (clusterChanged E sorter oldCluster newCluster clusterRef m).1.2 = "".
Proof.
  unfold clusterChanged.
  set (m' := sort_Sort sorter (sort_Sort sorter m (Nodes (Storage oldCluster)))
               (Nodes (Storage newCluster))).
  destruct (DeepEqual m' oldCluster newCluster) eqn:Heq; simpl; [|done].
  intros _. unfold DeepEqual in Heq.
  apply andb_true_iff in Heq as [Hrest Hnodes].
  apply bool_decide_eq_true in Hrest.
  split; [done|].
  assert (∀ s, read m' s ≡ₚ read m s) as Hperm.
  { intros s. unfold m'. by rewrite !read_sort_perm. }
  unfold slice_DeepEqual in Hnodes.
  destruct (Nodes (Storage oldCluster)) as [|a],
    (Nodes (Storage newCluster)) as [|b]; try done.
  apply bool_decide_eq_true in Hnodes.
  split; [done|]. split; [|done].
  by rewrite <- (Hperm (SliceOf a)), <- (Hperm (SliceOf b)), Hnodes.
Qed.

End DifferMore.

(** X22: the decision of [clusterChanged] and what it does to the backing
    store do not depend on the collaborators, [cmp.Diff] included; when
    [cmp.Diff] panics, the diff returned is empty and the change is
    reported as it would be otherwise. *)
Theorem diff_is_for_the_log_only E E' sorter oldCluster newCluster clusterRef m :
  (clusterChanged E sorter oldCluster newCluster clusterRef m).1.1
  = (clusterChanged E' sorter oldCluster newCluster clusterRef m).1.1
  ∧ (clusterChanged E sorter oldCluster newCluster clusterRef m).2
    = (clusterChanged E' sorter oldCluster newCluster clusterRef m).2
  ∧ (cmp_Diff E (clusterChanged E sorter oldCluster newCluster clusterRef m).2
       oldCluster newCluster = None →
     (clusterChanged E sorter oldCluster newCluster clusterRef m).1.2 = "").
Proof.
  rewrite !clusterChanged_heap. unfold clusterChanged.
  destruct (DeepEqual _ oldCluster newCluster); simpl; [done|].
  repeat split. by intros ->.
Qed.

(** ** [detectCephVersion] and [newCluster] *)

(** X23: [detectCephVersion] returns a version exactly when the job could
    be set up, ran without an error and with return code 0, and its
    standard output parses; the version is the one parsed.  A return code
    other than 0 is a failure whatever the job printed. *)
Theorem detectCephVersion_succeeds_iff E R c rookImage cephImage timeout v :
  detectCephVersion E R c rookImage cephImage timeout = inl v
  ↔ cmdreporter_New R
      (mkJob (ownerRef c) detectVersionName detectVersionName (Namespace c)
         ["ceph"] ["--version"] rookImage cephImage "") = None
    ∧ ∃ stdout stderr,
        cmdreporter_Run R
          (mkJob (ownerRef c) detectVersionName detectVersionName
             (Namespace c) ["ceph"] ["--version"] rookImage cephImage
             "rook-ceph-cmd-reporter") timeout
        = (stdout, stderr, 0%Z, None)
        ∧ ExtractCephVersion E stdout = inl v.
Proof.
  unfold detectCephVersion. simpl.
  destruct (cmdreporter_New R _) as [e|]; [split; [done|]; by intros [? _]|].
  destruct (cmdreporter_Run R _ timeout) as [[[stdout stderr] retcode] [e|]].
  { split; [done|]. by intros [_ (? & ? & ? & _)]. }
  case_bool_decide as Hcode.
  { split; [done|]. intros [_ (? & ? & ? & _)]. simplify_eq. }
  subst retcode.
  destruct (ExtractCephVersion E stdout) as [v'|e] eqn:Hparse.
  - split.
    + intros [= ->]. split; [done|]. by exists stdout, stderr.
    + intros [_ (? & ? & ? & ?)]. simplify_eq. congruence.
  - split; [done|]. intros [_ (? & ? & ? & ?)]. simplify_eq. congruence.
Qed.


(** ** The further properties at concrete inputs *)

Lemma refused_version_makes_no_call_witness :
  ¬ admitted calmEnv luminous plainState
  ∧ validateCephVersion calmEnv luminous plainState
    = (Fail (ErrBelowMinimum (Minimum calmEnv)), plainState).
Proof.
  assert (¬ admitted calmEnv luminous plainState) as Hno.
  { intros [Hmin _]. vm_compute in Hmin. discriminate Hmin. }
  split; [exact Hno|].
  exact (refused_version_makes_no_call calmEnv luminous plainState Hno).
Defined.

Lemma new_cluster_is_not_probed_witness :
  admitted (customEnv (None, Some (ErrExternal "not found")) None (None, None))
    nautilus4 plainState
  ∧ ¬ established
        (customEnv (None, Some (ErrExternal "not found")) None (None, None))
        plainState
  ∧ validateCephVersion
      (customEnv (None, Some (ErrExternal "not found")) None (None, None))
      nautilus4 plainState
    = (Return (),
       mkState (obj plainState) (mem plainState)
         [CallLoadClusterInfo "rook-ceph"]).
Proof.
  assert (admitted
            (customEnv (None, Some (ErrExternal "not found")) None (None, None))
            nautilus4 plainState) as Hadm by (split; [|left]; reflexivity).
  assert (¬ established
              (customEnv (None, Some (ErrExternal "not found")) None (None, None))
              plainState) as Hest.
  { intros H. vm_compute in H. discriminate H. }
  split; [exact Hadm|]. split; [exact Hest|].
  exact (new_cluster_is_not_probed _ nautilus4 plainState Hadm Hest).
Defined.

Lemma fetch_failure_is_not_fatal_witness :
  admitted (exampleEnv (inr (ErrExternal "timed out")) false None)
    nautilus5 plainState
  ∧ established (exampleEnv (inr (ErrExternal "timed out")) false None)
      plainState
  ∧ validateCephVersion (exampleEnv (inr (ErrExternal "timed out")) false None)
      nautilus5 plainState
    = (Return (),
       mkState (obj plainState) (mem plainState)
         [CallLoadClusterInfo "rook-ceph";
          CallWriteConnectionConfig (Some exampleInfo);
          CallGetAllCephDaemonVersions "rook-ceph"]).
Proof.
  assert (admitted (exampleEnv (inr (ErrExternal "timed out")) false None)
            nautilus5 plainState) as Hadm by (split; [|left]; reflexivity).
  split; [exact Hadm|]. split; [reflexivity|].
  exact (fetch_failure_is_not_fatal _ nautilus5 plainState
           (ErrExternal "timed out") Hadm (Logic.eq_refl _) (Logic.eq_refl _)).
Defined.

Lemma unparsed_version_is_not_fatal_witness :
  admitted (exampleEnv (inl (reports {[ "ceph/daemon:latest-master" := 3 ]}))
              false None) nautilus5 plainState
  ∧ ExtractCephVersion
      (exampleEnv (inl (reports {[ "ceph/daemon:latest-master" := 3 ]}))
         false None) "ceph/daemon:latest-master"
    = inr (ErrExternal "failed to parse version")
  ∧ (validateCephVersion
       (exampleEnv (inl (reports {[ "ceph/daemon:latest-master" := 3 ]}))
          false None) nautilus5 plainState).1 = Return ().
Proof.
  assert (admitted
            (exampleEnv (inl (reports {[ "ceph/daemon:latest-master" := 3 ]}))
               false None) nautilus5 plainState) as Hadm
    by (split; [|left]; reflexivity).
  split; [exact Hadm|]. split; [reflexivity|].
  destruct (unparsed_version_is_not_fatal _ nautilus5 plainState
              (reports {[ "ceph/daemon:latest-master" := 3 ]})
              "ceph/daemon:latest-master" 3
              (ErrExternal "failed to parse version") Hadm
              (Logic.eq_refl _) (Logic.eq_refl _) (Logic.eq_refl _)
              (Logic.eq_refl _)) as [_ ->].
  reflexivity.
Defined.

Lemma upgrade_decision_has_a_cause_witness :
  (validateCephVersion (exampleEnv (inl runs4) false None) nautilus5
     plainState).1 = Fail (ErrNotHealthy "rook-ceph")
  ∧ ∃ rvs,
      fetched (exampleEnv (inl runs4) false None) plainState rvs
      ∧ diffImageSpecAndClusterRunningVersion
          (exampleEnv (inl runs4) false None) nautilus5 rvs = (true, None).
Proof.
  assert ((validateCephVersion (exampleEnv (inl runs4) false None) nautilus5
             plainState).1 = Fail (ErrNotHealthy "rook-ceph")) as Hfail
    by (vm_compute; reflexivity).
  split; [exact Hfail|].
  exact (proj1 (proj2 (proj2
           (upgrade_decision_has_a_cause (exampleEnv (inl runs4) false None)
              nautilus5 plainState (or_intror Hfail))))).
Defined.

Lemma createInstance_while_running_witness :
  orchestrationRunning (obj busyState) = true
  ∧ createInstance calmEnv 1 threeRequests rookImage0 nautilus4 busyState
    = Some (None, [],
            mkState (setOrchestrationNeeded (obj busyState)) [] []).
Proof.
  split; [reflexivity|].
  apply (createInstance_while_running calmEnv 1 threeRequests rookImage0
           nautilus4 busyState); [reflexivity|lia].
Defined.

Lemma createInstance_alone_witness :
  orchestrationRunning (obj plainState) = false
  ∧ ∃ st', createInstance calmEnv 2 [] rookImage0 nautilus4 plainState
           = Some (None, [plainSpec], st').
Proof.
  split; [reflexivity|].
  destruct (createInstance_alone calmEnv 2 rookImage0 nautilus4 plainState)
    as [Hrun _]; [reflexivity|lia|].
  eexists. rewrite Hrun. reflexivity.
Defined.

Lemma waitingSystem_started : started waitingSystem.
Proof.
  pose (c := exampleCluster plainSpec []).
  eapply started_step;
    [|apply (step_request c [Entering] 0); reflexivity].
  eapply started_step; [|apply (step_spawn c [])].
  by constructor.
Qed.

Lemma drainedSystem_started : started drainedSystem.
Proof.
  pose (c := exampleCluster plainSpec []).
  eapply started_step;
    [|apply (step_claim c [AtCondition] 0); reflexivity].
  eapply started_step;
    [|apply (step_release (set_orchestrationRunning true c) [InPass] 0);
      reflexivity].
  eapply started_step;
    [|apply (step_claim (setOrchestrationNeeded c) [AtCondition] 0);
      reflexivity].
  exact waitingSystem_started.
Qed.

Lemma request_has_a_taker_witness :
  started waitingSystem
  ∧ orchestrationNeeded (shared waitingSystem) = true
  ∧ ∃ i, goroutines waitingSystem !! i = Some AtCondition
         ∨ goroutines waitingSystem !! i = Some InPass.
Proof.
  split; [exact waitingSystem_started|]. split; [reflexivity|].
  exact (request_has_a_taker waitingSystem waitingSystem_started
           (Logic.eq_refl _)).
Defined.

Lemma all_returned_means_drained_witness :
  started drainedSystem
  ∧ Forall (λ p, p = Returned) (goroutines drainedSystem)
  ∧ orchestrationNeeded (shared drainedSystem) = false
  ∧ orchestrationRunning (shared drainedSystem) = false.
Proof.
  assert (Forall (λ p, p = Returned) (goroutines drainedSystem)) as Hall
    by (by repeat constructor).
  split; [exact drainedSystem_started|]. split; [exact Hall|].
  exact (all_returned_means_drained drainedSystem drainedSystem_started Hall).
Defined.

Lemma successful_pass_witness :
  configMapReady calmEnv plainState
  ∧ IsInitialized (Some exampleInfo) = true
  ∧ (doOrchestration calmEnv rookImage0 nautilus4 plainSpec plainState).1
    = Return ()
  ∧ phase <$> log (doOrchestration calmEnv rookImage0 nautilus4 plainSpec
                     plainState).2
    = [1; 2; 4; 5; 6; 8].
Proof.
  split; [reflexivity|]. split; [reflexivity|].
  rewrite (successful_pass calmEnv rookImage0 nautilus4 plainSpec plainState
             (Some exampleInfo));
    [split|..]; reflexivity.
Defined.

Lemma identity_must_be_established_witness :
  configMapReady (customEnv (None, None) None (None, None)) plainState
  ∧ IsInitialized None = false
  ∧ (doOrchestration (customEnv (None, None) None (None, None)) rookImage0
       nautilus4 plainSpec plainState).1 = Fail ErrIdentity.
Proof.
  split; [exact I|]. split; [reflexivity|].
  rewrite (identity_must_be_established
             (customEnv (None, None) None (None, None)) rookImage0 nautilus4
             plainSpec plainState None); [reflexivity|exact I|reflexivity..].
Defined.

Lemma configmap_failure_ends_pass_witness :
  IsAlreadyExists (ErrExternal "forbidden") = false
  ∧ doOrchestration
      (customEnv (None, None) (Some (ErrExternal "forbidden")) (None, None))
      rookImage0 nautilus4 plainSpec plainState
    = (Fail (ErrConfigMap "rook-ceph" (ErrExternal "forbidden")),
       mkState (obj plainState) (mem plainState)
         [CallCreateConfigMap "rook-ceph" "rook-ceph"]).
Proof.
  split; [reflexivity|].
  exact (configmap_failure_ends_pass
           (customEnv (None, None) (Some (ErrExternal "forbidden")) (None, None))
           rookImage0 nautilus4 plainSpec plainState (ErrExternal "forbidden")
           (Logic.eq_refl _) (Logic.eq_refl _)).
Defined.

Lemma clusterChanged_again_witness :
  orderIsFixed (read trioHeap (Nodes (Storage twinsOld)))
  ∧ orderIsFixed (read trioHeap (Nodes (Storage twinsNew)))
  ∧ clusterChanged calmEnv insertionSorter twinsOld twinsNew
      (exampleCluster twinsNew [])
      (clusterChanged calmEnv insertionSorter twinsOld twinsNew
         (exampleCluster twinsNew []) trioHeap).2
    = clusterChanged calmEnv insertionSorter twinsOld twinsNew
        (exampleCluster twinsNew []) trioHeap.
Proof.
  assert (orderIsFixed (read trioHeap (Nodes (Storage twinsOld)))) as Hold
    by (right; simpl; lia).
  assert (orderIsFixed (read trioHeap (Nodes (Storage twinsNew)))) as Hnew
    by (right; simpl; lia).
  split; [exact Hold|]. split; [exact Hnew|].
  exact (clusterChanged_again calmEnv insertionSorter twinsOld twinsNew
           (exampleCluster twinsNew []) (exampleCluster twinsNew []) trioHeap
           Hold Hnew).
Defined.

Lemma unchanged_means_same_witness :
  (clusterChanged calmEnv insertionSorter twinsOld twinsNew
     (exampleCluster twinsNew []) trioHeap).1.1 = false
  ∧ read trioHeap (Nodes (Storage twinsOld))
    ≡ₚ read trioHeap (Nodes (Storage twinsNew)).
Proof.
  assert ((clusterChanged calmEnv insertionSorter twinsOld twinsNew
             (exampleCluster twinsNew []) trioHeap).1.1 = false) as Hsame
    by (vm_compute; reflexivity).
  split; [exact Hsame|].
  exact (proj1 (proj2 (proj2
           (unchanged_means_same calmEnv insertionSorter twinsOld twinsNew
              (exampleCluster twinsNew []) trioHeap Hsame)))).
Defined.


(** The version job prints a version and fails: no version is detected;
    it prints the same and exits with 0: the version is the one printed. *)
Example detectCephVersion_retcode :
  detectCephVersion calmEnv (exampleReporter v14_2_4 1)
    (exampleCluster plainSpec []) rookImage0 "ceph/ceph:v14.2.4" 60
  = inr (ErrRetcode 1 v14_2_4 "")
  ∧ detectCephVersion calmEnv (exampleReporter v14_2_4 0)
      (exampleCluster plainSpec []) rookImage0 "ceph/ceph:v14.2.4" 60
    = inl nautilus4.
Proof. split; vm_compute; reflexivity. Qed.
